(** * Fresh dev-mode manifest tooling ([src/dev/mod.ts])

    A shallow embedding of the development-mode helper of the Fresh web
    framework: the directory collector, the manifest generator, the change
    detector, the entrypoint collector and the orchestrating [dev] cycle,
    followed by the properties established about them.

    Conventions.  A JavaScript string is a [string]; each [ascii] stands for
    one code unit.  A thrown exception is the [Throw] branch of [JsResult].
    A JavaScript object used as a dictionary is a [gmap string _], a [Set] is
    a [gset].  A value of unknown shape, such as the result of [JSON.parse],
    is a [JsValue]. *)

From Stdlib Require Import Ascii String DecimalString DecimalNat QArith_base.
From stdpp Require Import gmap strings list fin_maps sorting.

Set Warnings "-register-all,-clear-no-such-hyp".

Close Scope Q_scope.

Local Open Scope string_scope.
Local Open Scope list_scope.

(** ** Characters and string primitives *)

Module Chars.
Definition dquote : ascii := "034"%char.
Definition backslash : ascii := "092"%char.
Definition newline : ascii := "010"%char.
Definition slash : ascii := "/"%char.
Definition dot : ascii := "."%char.
End Chars.

Definition str (c : ascii) : string := String c EmptyString.

Definition DQ : string := str Chars.dquote.
Definition NL : string := str Chars.newline.

(** [s.startsWith(p)] *)
Fixpoint startsWith (s p : string) {struct p} : bool :=
  match p with
  | EmptyString => true
  | String b p' =>
      match s with
      | EmptyString => false
      | String a s' => Ascii.eqb a b && startsWith s' p'
      end
  end.

(** [s.endsWith(p)] *)
Fixpoint endsWith (s p : string) : bool :=
  if String.eqb s p then true
  else match s with
       | EmptyString => false
       | String _ s' => endsWith s' p
       end.

(** [s.includes(sub)] *)
Fixpoint includes (s sub : string) : bool :=
  startsWith s sub
  || match s with
     | EmptyString => false
     | String _ s' => includes s' sub
     end.

(** [s.split(sep)] for a one-character separator. *)
Fixpoint split (sep : ascii) (s : string) : list string :=
  match s with
  | EmptyString => [EmptyString]
  | String c s' =>
      if Ascii.eqb c sep then EmptyString :: split sep s'
      else match split sep s' with
           | [] => [str c]
           | h :: t => String c h :: t
           end
  end.

(** [parts.join(sep)] *)
Fixpoint Array_join (sep : string) (parts : list string) : string :=
  match parts with
  | [] => EmptyString
  | [x] => x
  | x :: rest => x +:+ sep +:+ Array_join sep rest
  end.

(** [xs.slice(0, -1)] *)
Definition slice_0_m1 {A} (xs : list A) : list A := removelast xs.

(** [s.replace(/\\/g, "/")] *)
Fixpoint replace_backslashes (s : string) : string :=
  match s with
  | EmptyString => EmptyString
  | String c s' =>
      String (if Ascii.eqb c Chars.backslash then Chars.slash else c)
             (replace_backslashes s')
  end.

(** Decimal rendering of an array index, as in [`${i}`]. *)
Definition Number_toString (i : nat) : string :=
  NilZero.string_of_uint (Nat.to_uint i).

(** ** Exceptions *)

Inductive JsError : Type :=
  | NotFound (message : string)            (* Deno.errors.NotFound *)
  | DenoError (name message : string)      (* any other Deno.errors class *)
  | SyntaxError (message : string)
  | TypeError (message : string)
  | Error (message : string).              (* new Error(message) *)

Global Instance JsError_eq_dec : EqDecision JsError.
Proof. solve_decision. Defined.

Inductive JsResult (A : Type) : Type :=
  | Return (a : A)
  | Throw (e : JsError).
Arguments Return {A} & a.
Arguments Throw {A} e.

Global Instance JsResult_bind : MBind JsResult := λ A B f r,
  match r with
  | Return a => f a
  | Throw err => Throw err
  end.

(** [err instanceof Deno.errors.NotFound] *)
Definition instanceof_NotFound (e : JsError) : bool :=
  match e with NotFound _ => true | _ => false end.

(** [Promise.all([p, q])] for two promises that settle as [p] and [q]: it
    fulfils with both values when both fulfil, and rejects with the reason of
    the promise that rejects first; [p_rejects_first] tells which one that is
    when both reject. *)
Definition Promise_all {A B} (p_rejects_first : bool)
  (p : JsResult A) (q : JsResult B) : JsResult (A * B) :=
  match p, q with
  | Return a, Return b => Return (a, b)
  | Throw err, Return _ => Throw err
  | Return _, Throw err => Throw err
  | Throw err_p, Throw err_q =>
      Throw (if p_rejects_first then err_p else err_q)
  end.

(** ** Values of unknown shape

    What [JSON.parse] returns is not checked against the TypeScript type it
    is assigned to: it may be any JSON value.  A number is a double; the
    finite doubles are rationals, and a literal that overflows reads as an
    infinity. *)

Inductive JsNumber : Type :=
  | Finite (q : Q)
  | Infinite.

Inductive JsValue : Type :=
  | JUndefined
  | JNull
  | JBoolean (b : bool)
  | JNumber (x : JsNumber)
  | JString (s : string)
  | JArray (elements : list JsValue)
  | JObject (properties : gmap string JsValue).

(** The number [n], for an array length or a string length [n]. *)
Definition Number_of_length (n : nat) : JsNumber :=
  Finite (inject_Z (Z.of_nat n)).

(** [n === x] for a length [n] and a number [x]. *)
Definition Number_is_length (n : nat) (x : JsNumber) : bool :=
  match x with
  | Finite q => (Qnum q =? Z.of_nat n * Z.pos (Qden q))%Z
  | Infinite => false
  end.

(** The array index a property key stands for: the key is the decimal
    rendering of the index. *)
Definition array_index (key : string) : option nat :=
  match NilZero.uint_of_string key with
  | Some digits =>
      let i := Nat.of_uint digits in
      if String.eqb (Number_toString i) key then Some i else None
  | None => None
  end.

Definition cannot_read (value key : string) : JsError :=
  TypeError ("Cannot read properties of " +:+ value
             +:+ " (reading '" +:+ key +:+ "')").

(** [value[key]], and [value.key] for a key that is an identifier, for the
    keys the code reads: [routes], [islands], [length] and array indices,
    none of which is inherited from a prototype.  Reading from [undefined]
    or [null] throws a [TypeError]; an own property of an object, an element
    or the length of an array, a code unit or the length of a string are
    found; any other property is [undefined]. *)
Definition Get (value : JsValue) (key : string) : JsResult JsValue :=
  match value with
  | JUndefined => Throw (cannot_read "undefined" key)
  | JNull => Throw (cannot_read "null" key)
  | JBoolean _ | JNumber _ => Return JUndefined
  | JString s =>
      if String.eqb key "length"
      then Return (JNumber (Number_of_length (String.length s)))
      else Return (match array_index key ≫= λ i, String.get i s with
                   | Some c => JString (str c)
                   | None => JUndefined
                   end)
  | JArray elements =>
      if String.eqb key "length"
      then Return (JNumber (Number_of_length (length elements)))
      else Return (default JUndefined (array_index key ≫= λ i, elements !! i))
  | JObject properties => Return (default JUndefined (properties !! key))
  end.

(** ** The path library (std [path], POSIX flavour)

    [posix.normalize], [join] and [relative] come from the Deno standard
    library through [deps.ts]; they are modelled here segment-wise after the
    library's documented behaviour. *)

Module posix.

Definition pop_or_keep (allowAboveRoot : bool) (stack : list string)
  : list string :=
  match stack with
  | top :: rest =>
      if String.eqb top ".." then
        (if allowAboveRoot then ".." :: stack else stack)
      else rest
  | [] => if allowAboveRoot then [".."] else []
  end.

(** One path segment against the stack of segments kept so far (top
    first). *)
Definition normalize_step (allowAboveRoot : bool) (stack : list string)
  (seg : string) : list string :=
  if String.eqb seg EmptyString || String.eqb seg "." then stack
  else if String.eqb seg ".." then pop_or_keep allowAboveRoot stack
  else seg :: stack.

Definition normalizeString (path : string) (allowAboveRoot : bool) : string :=
  Array_join "/"
    (rev (fold_left (normalize_step allowAboveRoot)
                    (split Chars.slash path) [])).

Definition normalize (path : string) : string :=
  if String.eqb path EmptyString then "."
  else
    let isAbsolute := startsWith path "/" in
    let trailingSeparator := endsWith path "/" in
    let p := normalizeString path (negb isAbsolute) in
    let p := if String.eqb p EmptyString && negb isAbsolute then "." else p in
    let p := if negb (String.eqb p EmptyString) && trailingSeparator
             then p +:+ "/" else p in
    if isAbsolute then "/" +:+ p else p.

Definition join (paths : list string) : string :=
  match filter (λ p, p ≠ EmptyString) paths with
  | [] => "."
  | parts => normalize (Array_join "/" parts)
  end.

(** [dirname(path)]: the path without its last segment. *)
Definition dirname (path : string) : string :=
  match split Chars.slash path with
  | [] | [_] => "."
  | parts =>
      let dir := Array_join "/" (removelast parts) in
      if String.eqb dir EmptyString then "/" else dir
  end.

(** The non-empty segments of a path. *)
Definition segments (path : string) : list string :=
  filter (λ seg, seg ≠ EmptyString) (split Chars.slash path).

Fixpoint strip_common (xs ys : list string) : list string * list string :=
  match xs, ys with
  | x :: xs', y :: ys' =>
      if String.eqb x y then strip_common xs' ys' else (xs, ys)
  | _, _ => (xs, ys)
  end.

(** [relative(from, to)] on two absolute, normalized paths, which is what
    [join] and [dirname] hand to it in [dev], [collectDir] and [generate]: one
    [..] per segment of [from] below the common ancestor, then the segments
    of [to] below it.  The library first resolves both paths against the
    working directory; that step is the identity on absolute, normalized
    paths and is left out, so on a relative path and on a path with [.] or
    [..] segments this definition is not the library's function. *)
Definition relative (from to : string) : string :=
  let '(up, down) := strip_common (segments from) (segments to) in
  Array_join "/" (((λ _, "..") <$> up) ++ down).

End posix.

(** [join], [relative] and [dirname] of [deps.ts]. *)
Definition join : list string → string := posix.join.
Definition relative : string → string → string := posix.relative.
Definition dirname : string → string := posix.dirname.

(** * The manifest and the change detector *)

Record Manifest : Type := mkManifest {
  routes : list string;
  islands : list string;
}.

Global Instance Manifest_eq_dec : EqDecision Manifest.
Proof. solve_decision. Defined.

(** [arraysEqual] at the type it is declared with, two arrays of one
    element type, for an element type on which [!==] is inequality of values,
    as it is on strings.

    The body of [for (let i = 0; i < a.length; ++i)]: [n] iterations remain,
    starting at index [i]. *)
Fixpoint arraysEqual_loop {T} `{EqDecision T} (a b : list T) (i n : nat)
  : bool :=
  match n with
  | 0 => true
  | S n' =>
      if bool_decide (a !! i ≠ b !! i) then false
      else arraysEqual_loop a b (S i) n'
  end.

Definition arraysEqual {T} `{EqDecision T} (a b : list T) : bool :=
  if bool_decide (length a ≠ length b) then false
  else arraysEqual_loop a b 0 (length a).

(** [manifestChanged] of [dev], for a current manifest that is one. *)
Definition manifestChanged (newManifest currentManifest : Manifest) : bool :=
  negb (arraysEqual (routes newManifest) (routes currentManifest))
  || negb (arraysEqual (islands newManifest) (islands currentManifest)).

(** *** The same code on a value of unknown shape

    [dev] passes [arraysEqual] the properties of whatever [JSON.parse]
    returned.  The first argument is an array of strings; the second is any
    value. *)

(** [x !== y] for a length [x]. *)
Definition length_differs (x : nat) (y : JsValue) : bool :=
  match y with
  | JNumber n => negb (Number_is_length x n)
  | _ => true
  end.

(** [x !== y] for [x] an element of a string array, [None] when the index is
    out of range. *)
Definition element_differs (x : option string) (y : JsValue) : bool :=
  match x, y with
  | Some s, JString t => negb (String.eqb s t)
  | None, JUndefined => false
  | _, _ => true
  end.

Fixpoint arraysEqual_untyped_loop (a : list string) (b : JsValue) (i n : nat)
  : JsResult bool :=
  match n with
  | 0 => Return true
  | S n' =>
      b_i ← Get b (Number_toString i) ;
      if element_differs (a !! i) b_i then Return false
      else arraysEqual_untyped_loop a b (S i) n'
  end.

Definition arraysEqual_untyped (a : list string) (b : JsValue)
  : JsResult bool :=
  b_length ← Get b "length" ;
  if length_differs (length a) b_length then Return false
  else arraysEqual_untyped_loop a b 0 (length a).

(** The object [{ routes, islands }] of a manifest. *)
Definition manifest_value (m : Manifest) : JsValue :=
  JObject {[ "routes" := JArray (JString <$> routes m);
             "islands" := JArray (JString <$> islands m) ]}.

Coercion manifest_value : Manifest >-> JsValue.

(** [!arraysEqual(newManifest.routes, currentManifest.routes) ||
     !arraysEqual(newManifest.islands, currentManifest.islands)]: the
    islands are looked at only when the routes are equal. *)
Definition manifestChanged_untyped (newManifest : Manifest)
  (currentManifest : JsValue) : JsResult bool :=
  current_routes ← Get currentManifest "routes" ;
  same_routes ← arraysEqual_untyped (routes newManifest) current_routes ;
  if negb same_routes then Return true
  else
    current_islands ← Get currentManifest "islands" ;
    same_islands ← arraysEqual_untyped (islands newManifest) current_islands ;
    Return (negb same_islands).

(** * The manifest generator *)

Definition toImportSpecifier (file : string) : string :=
  let specifier := replace_backslashes (posix.normalize file) in
  if negb (startsWith specifier "..") then "./" +:+ specifier
  else specifier.

(** ** [JSON.stringify] on strings, string arrays and manifests *)

Module JSON.

Definition hex_digit (n : nat) : string :=
  match n with
  | 0 => "0" | 1 => "1" | 2 => "2" | 3 => "3" | 4 => "4" | 5 => "5"
  | 6 => "6" | 7 => "7" | 8 => "8" | 9 => "9" | 10 => "a" | 11 => "b"
  | 12 => "c" | 13 => "d" | 14 => "e" | _ => "f"
  end.

Definition BS : string := str Chars.backslash.

Definition escape_char (c : ascii) : string :=
  let n := nat_of_ascii c in
  if Ascii.eqb c Chars.dquote then BS +:+ DQ
  else if Ascii.eqb c Chars.backslash then BS +:+ BS
  else if Nat.eqb n 8 then BS +:+ "b"
  else if Nat.eqb n 9 then BS +:+ "t"
  else if Nat.eqb n 10 then BS +:+ "n"
  else if Nat.eqb n 12 then BS +:+ "f"
  else if Nat.eqb n 13 then BS +:+ "r"
  else if Nat.ltb n 32 then
    BS +:+ "u00" +:+ hex_digit (n / 16)%nat +:+ hex_digit (n mod 16)%nat
  else str c.

Fixpoint escape (s : string) : string :=
  match s with
  | EmptyString => EmptyString
  | String c s' => escape_char c +:+ escape s'
  end.

Definition stringify_string (s : string) : string := DQ +:+ escape s +:+ DQ.

Definition stringify_array (xs : list string) : string :=
  "[" +:+ Array_join "," (stringify_string <$> xs) +:+ "]".

(** [JSON.stringify({ routes, islands })] *)
Definition stringify (m : Manifest) : string :=
  "{" +:+ DQ +:+ "routes" +:+ DQ +:+ ":" +:+ stringify_array (routes m)
  +:+ "," +:+ DQ +:+ "islands" +:+ DQ +:+ ":"
  +:+ stringify_array (islands m) +:+ "}".

End JSON.

(** ** The generated module text *)

(** [`import * as ${alias}${i} from "${toImportSpecifier(join(rel, kind, file))}";`] *)
Definition import_line (alias rel kind : string) (i : nat) (file : string)
  : string :=
  "import * as " +:+ alias +:+ Number_toString i +:+ " from " +:+ DQ
  +:+ toImportSpecifier (join [rel; kind; file]) +:+ DQ +:+ ";".

(** The key of one entry of the [routes] or [islands] object literal. *)
Definition entry_key (kind file : string) : string :=
  toImportSpecifier (join [kind; file]).

(** [`${JSON.stringify(key)}: ${alias}${i},`] *)
Definition entry_line (alias kind : string) (i : nat) (file : string)
  : string :=
  JSON.stringify_string (entry_key kind file) +:+ ": " +:+ alias
  +:+ Number_toString i +:+ ",".

(** The template literal [output] of [generate]; [rel] is
    [relative(directory, cwd)]. *)
Definition generate_output (rel : string) (manifest : Manifest) : string :=
  "// DO NOT EDIT. This file is generated by Fresh." +:+ NL +:+
  "// This file SHOULD be checked into source version control." +:+ NL +:+
  "// This file is automatically updated during development when running `dev.ts`."
  +:+ NL +:+ NL +:+
  Array_join NL (imap (import_line "$" rel "routes") (routes manifest))
  +:+ NL +:+
  Array_join NL (imap (import_line "$$" rel "islands") (islands manifest))
  +:+ NL +:+ NL +:+
  "const manifest = {" +:+ NL +:+
  "  routes: {" +:+ NL +:+
  "    " +:+
  Array_join (NL +:+ "    ") (imap (entry_line "$" "routes") (routes manifest))
  +:+ NL +:+
  "  }," +:+ NL +:+
  "  islands: {" +:+ NL +:+
  "    " +:+
  Array_join (NL +:+ "    ")
    (imap (entry_line "$$" "islands") (islands manifest))
  +:+ NL +:+
  "  }," +:+ NL +:+
  "  baseUrl: import.meta.url," +:+ NL +:+
  "};" +:+ NL +:+ NL +:+
  "export default manifest;" +:+ NL.

(** The (key, alias) pairs of an object literal of the output, and the line
    that renders one pair. *)
Definition object_entries (alias kind : string) (files : list string)
  : list (string * string) :=
  imap (λ i file, (entry_key kind file, alias +:+ Number_toString i)) files.

Definition render_entry (entry : string * string) : string :=
  JSON.stringify_string entry.1 +:+ ": " +:+ entry.2 +:+ ",".

(** * The directory collector *)

(** ** The file system seen by [Deno.stat] and [walk] *)

(** A directory entry as [Deno.readDir] lists it: a regular file, or a
    sub-directory with its own entries (in listing order). *)
Inductive FsEntry : Type :=
  | FsFile (name : string)
  | FsDir (name : string) (children : list FsEntry).

Inductive FsNode : Type :=
  | RegularFile
  | Directory (entries : list FsEntry).

(** What [Deno.stat(path)] finds: a node, or the error it rejects with. *)
Definition FileSystem : Type := string → JsResult FsNode.

Record FileInfo : Type := { isDirectory : bool }.

Definition Deno_stat (fs : FileSystem) (path : string) : JsResult FileInfo :=
  match fs path with
  | Throw err => Throw err
  | Return RegularFile => Return {| isDirectory := false |}
  | Return (Directory _) => Return {| isDirectory := true |}
  end.

(** The [exts] option passed to [walk]. *)
Definition exts : list string := ["tsx"; "jsx"; "ts"; "js"].

(** Modelled from the spec: the [exts] filter of the standard library's
    [walk], which is not part of this module; only files whose extension is
    in the allow-list are yielded. *)
Definition include (path : string) (exts : list string) : bool :=
  existsb (λ ext, endsWith path ("." +:+ ext)) exts.

(** The path of an entry of the directory [root], [join(root, entry.name)]. *)
Definition child_path (root name : string) : string :=
  root +:+ "/" +:+ name.

(** Modelled from the spec: [walk(root, { includeDirs: false, includeFiles:
    true, exts })] of the standard library, as the sequence of [entry.path]
    values it yields: a depth-first traversal in listing order that reports
    files only. *)
Fixpoint walk_entry (root : string) (entry : FsEntry) : list string :=
  match entry with
  | FsFile name =>
      if include (child_path root name) exts
      then [child_path root name] else []
  | FsDir name children =>
      flat_map (walk_entry (child_path root name)) children
  end.

Definition walk_entries (root : string) (entries : list FsEntry)
  : list string :=
  flat_map (walk_entry root) entries.

Definition walk (fs : FileSystem) (dir : string) : list string :=
  match fs dir with
  | Return (Directory entries) => walk_entries dir entries
  | _ => []
  end.

(** A name that a directory listing can hold: not empty, no separator. *)
Definition valid_name (name : string) : bool :=
  negb (String.eqb name EmptyString)
  && forallb (λ c, negb (Ascii.eqb c Chars.slash)) (list_ascii_of_string name).

Fixpoint valid_entry (entry : FsEntry) : bool :=
  match entry with
  | FsFile name => valid_name name
  | FsDir name children => valid_name name && forallb valid_entry children
  end.

(** The files below an entry, as paths relative to the directory that lists
    it, in traversal order; directories themselves are not files. *)
Fixpoint entry_files (entry : FsEntry) : list string :=
  match entry with
  | FsFile name => [name]
  | FsDir name children =>
      (λ rel, name +:+ "/" +:+ rel) <$> flat_map entry_files children
  end.

Definition tree_files (entries : list FsEntry) : list string :=
  flat_map entry_files entries.

(** The files of the tree that carry one of the four extensions. *)
Definition matching_files (entries : list FsEntry) : list string :=
  filter (λ rel, include rel exts = true) (tree_files entries).

(** [rel.split(".").slice(0, -1).join(".")], applied in [collectDir] to
    [relative(dir, entry.path)]. *)
Definition strip_ext (rel : string) : string :=
  Array_join "." (slice_0_m1 (split Chars.dot rel)).

Definition fileNameWithoutExt (dir entry_path : string) : string :=
  strip_ext (relative dir entry_path).

Definition conflict_message (dir fileNameWithoutExt : string) : string :=
  "Route conflict detected. Multiple files have the same name: "
  +:+ dir +:+ fileNameWithoutExt.

(** The [for await (const entry of routesFolder)] loop of [collectDir], with
    the two accumulators [paths] and [fileNames]. *)
Fixpoint collectDir_loop (dir : string) (routesFolder : list string)
  (paths : list string) (fileNames : gset string) : JsResult (list string) :=
  match routesFolder with
  | [] => Return paths
  | entry_path :: rest =>
      let key := fileNameWithoutExt dir entry_path in
      if bool_decide (key ∈ fileNames) then
        Throw (Error (conflict_message dir key))
      else
        collectDir_loop dir rest (paths ++ [relative dir entry_path])
                        (fileNames ∪ {[key]})
  end.

(** [paths.sort()]: the default order compares strings code unit by code
    unit. *)
Definition Array_sort (paths : list string) : list string :=
  merge_sort String.le paths.

Definition collectDir (fs : FileSystem) (dir : string)
  : JsResult (list string) :=
  match Deno_stat fs dir with
  | Throw err =>
      if instanceof_NotFound err then Return [] else Throw err
  | Return stat =>
      if negb (isDirectory stat) then Return []
      else
        match collectDir_loop dir (walk fs dir) [] ∅ with
        | Throw err => Throw err
        | Return paths => Return (Array_sort paths)
        end
  end.

(** * The entrypoint collector *)

Module Island.
(** The fields of [Island] that [collectEntrypoints] reads. *)
Record t : Type := mk { id : string; url : string }.
End Island.

Module Plugin.
(** The fields of [Plugin] that [collectEntrypoints] reads; [entrypoints]
    is optional. *)
Record t : Type := mk {
  name : string;
  entrypoints : option (gmap string string);
}.
End Plugin.

(** [import.meta.resolve]: a relative specifier resolves against the URL of
    the module; a bare specifier resolves only if the import map has it. *)
Record ImportMeta : Type := {
  resolve_relative : string → string;
  in_import_map : string → bool;
}.

(** [Object.entries(obj)] *)
Definition Object_entries (obj : gmap string string)
  : list (string * string) := map_to_list obj.

Definition island_key (id : string) : string := "island-" +:+ id.

Definition plugin_key (pluginName name : string) : string :=
  "plugin-" +:+ pluginName +:+ "-" +:+ name.

(** The inner loop over one plugin's entrypoints. *)
Definition add_plugin (entryPoints : gmap string string) (plugin : Plugin.t)
  : gmap string string :=
  foldl (λ acc entry, <[plugin_key (Plugin.name plugin) entry.1 := entry.2]> acc)
        entryPoints
        (Object_entries (default ∅ (Plugin.entrypoints plugin))).

Definition add_island (entryPoints : gmap string string) (island : Island.t)
  : gmap string string :=
  <[island_key (Island.id island) := Island.url island]> entryPoints.

Definition collectEntrypoints (meta : ImportMeta) (dev : bool)
  (islands : list Island.t) (plugins : list Plugin.t) : gmap string string :=
  let entrypointBase := "../runtime/entrypoints" in
  let entryPoints : gmap string string :=
    <["deserializer" := resolve_relative meta (entrypointBase +:+ "/deserializer.ts")]>
      (<["main" := if dev
                   then resolve_relative meta (entrypointBase +:+ "/main_dev.ts")
                   else resolve_relative meta (entrypointBase +:+ "/main.ts")]> ∅) in
  let entryPoints :=
    if in_import_map meta "@preact/signals"
    then <["signals" := resolve_relative meta (entrypointBase +:+ "/signals.ts")]> entryPoints
    else entryPoints in
  let entryPoints := foldl add_island entryPoints islands in
  foldl add_plugin entryPoints plugins.

(** [plugin] assigns to the key [key]: it declares an entry whose key is
    [key]. *)
Definition plugin_writes (plugin : Plugin.t) (key : string) : Prop :=
  ∃ entries name,
    Plugin.entrypoints plugin = Some entries
    ∧ is_Some (entries !! name)
    ∧ plugin_key (Plugin.name plugin) name = key.

(** * The dev cycle *)

(** ** Effects *)

(** What a cycle does, in the order it does it: the effects it attempts on
    its collaborators and, as [Generate], each entry into [generate]. *)
Inductive Event : Type :=
  | UpdateCheck
  | EnvSet (key value : string)
  | Exists (url : string)
  | Generate (directory cwd : string) (manifest : Manifest)  (* a call *)
  | Fmt (input : string)
  | Mkdir (path : string)
  | WriteTextFile (path text : string)
  | ConsoleLog (message : string)
  | EmptyDir (path : string)
  | Import (url : string)
  | ReadDenoConfig (dir : string)
  | Build (entrypoints : gmap string string) (outDir : string).

Global Instance Event_eq_dec : EqDecision Event.
Proof. solve_decision. Defined.

(** The collaborators of a cycle: the host runtime, the file system, the
    formatter, the framework's context loader and the bundler.

    Modelled from the spec: [exists], imported through [deps.ts], answers
    whether the output manifest file is present; [exists_] is that answer
    for the URL it is given. *)
Record World : Type := {
  version_gte_min : bool;      (* gte(Deno.version.deno, MIN_DENO_VERSION) *)
  execPath_homebrew : bool;    (* Deno.execPath().includes("homebrew") *)
  fs : FileSystem;
  routes_scan_rejects_first : bool;  (* of the two scans, when both reject *)
  exists_ : string → bool;     (* exists(manifestUrl): the file is there *)
  JSON_parse : string → JsResult JsValue;
  fmt_stdout : string → string;            (* what [deno fmt -] prints *)
  fails : Event → option JsError;          (* an effect that rejects *)
  meta : ImportMeta;
  prepareIslands : list Island.t;          (* islands of the loaded manifest *)
  plugins : list Plugin.t;                 (* freshConfig.plugins ?? [] *)
  dependencies_json : string;  (* JSON.stringify(dependencies) after build *)
}.

(** The mutable state of the process: its environment variables, and the
    effects attempted so far. *)
Record State : Type := {
  env : gmap string string;
  trace : list Event;
}.

Definition M (A : Type) : Type := State → JsResult A * State.

Global Instance M_ret : MRet M := λ A a st, (Return a, st).

Global Instance M_bind : MBind M := λ A B f m st,
  match m st with
  | (Return a, st') => f a st'
  | (Throw err, st') => (Throw err, st')
  end.

Definition throw {A} (err : JsError) : M A := λ st, (Throw err, st).

Definition lift {A} (r : JsResult A) : M A := λ st, (r, st).

(** Attempt an effect: it is recorded, and rejects if the world says so. *)
Definition perform (w : World) (ev : Event) : M unit := λ st,
  let st' := {| env := env st; trace := trace st ++ [ev] |} in
  match fails w ev with
  | Some err => (Throw err, st')
  | None => (Return (), st')
  end.

(** [promise.catch(() => {})]: what [m] does is done, its rejection is
    dropped. *)
Definition swallow {A} (m : M A) : M unit := λ st,
  (Return (), (m st).2).

(** Entering a function: recorded in the trace; it is no effect and cannot
    reject. *)
Definition enter (ev : Event) : M unit := λ st,
  (Return (), {| env := env st; trace := trace st ++ [ev] |}).

(** [Deno.env.get(key)] *)
Definition Deno_env_get (key : string) : M (option string) := λ st,
  (Return (env st !! key), st).

(** [Deno.env.set(key, value)] *)
Definition Deno_env_set (key value : string) : M unit := λ st,
  (Return (),
   {| env := <[key := value]> (env st);
      trace := trace st ++ [EnvSet key value] |}).

(** ** [ensureMinDenoVersion] *)

Definition MIN_DENO_VERSION : string := "1.31.0".

Definition ensureMinDenoVersion (w : World) : M unit :=
  if negb (version_gte_min w) then
    let message :=
      "Deno version " +:+ MIN_DENO_VERSION
      +:+ " or higher is required. Please update Deno." +:+ NL +:+ NL in
    let message :=
      if execPath_homebrew w then
        message +:+
        "You seem to have installed Deno via homebrew. To update, run: `brew upgrade deno`"
        +:+ NL
      else message +:+ "To update, run: `deno upgrade`" +:+ NL in
    (* error(message) ends the cycle *)
    throw (Error message)
  else mret ().

(** ** [generate] *)

Definition generated_message (manifest : Manifest) : string :=
  "%cThe manifest has been generated for "
  +:+ Number_toString (length (routes manifest)) +:+ " routes and "
  +:+ Number_toString (length (islands manifest)) +:+ " islands.".

Definition generate (w : World) (directory cwd : string) (manifest : Manifest)
  : M string :=
  enter (Generate directory cwd manifest) ;;
  let rel := relative directory cwd in
  let output := generate_output rel manifest in
  perform w (Fmt output) ;;
  let manifestStr := fmt_stdout w output in
  let manifestPath := join [directory; "fresh.gen.ts"] in
  perform w (Mkdir (dirname manifestPath)) ;;
  perform w (WriteTextFile manifestPath manifestStr) ;;
  perform w (ConsoleLog (generated_message manifest)) ;;
  mret manifestPath.

(** ** [dev] *)

Definition FRSH_DEV_PREVIOUS_MANIFEST : string := "FRSH_DEV_PREVIOUS_MANIFEST".

Definition toFileUrl_href (path : string) : string := "file://" +:+ path.

(** The value [dev] compares against: what [JSON.parse] makes of the
    environment variable when it holds a non-empty string, else the object
    [{ islands: [], routes: [] }]. *)
Definition load_currentManifest (w : World) (prevManifest : option string)
  : JsResult JsValue :=
  match prevManifest with
  | Some text =>
      if String.eqb text EmptyString then Return (mkManifest [] [])
      else JSON_parse w text
  | None => Return (mkManifest [] [])
  end.

(** The change detector, lines 206 to 218 of [dev]: read the recorded
    manifest, record the new one, compare. *)
Definition detect_change (w : World) (newManifest : Manifest) : M bool :=
  prevManifest ← Deno_env_get FRSH_DEV_PREVIOUS_MANIFEST ;
  currentManifest ← lift (load_currentManifest w prevManifest) ;
  Deno_env_set FRSH_DEV_PREVIOUS_MANIFEST (JSON.stringify newManifest) ;;
  lift (manifestChanged_untyped newManifest currentManifest).

(** [dev], from the point where [dir] (the project directory), [outDir] and
    the [entrypoint] URL have been resolved against [base].  The update check
    runs in the background and its rejection is dropped.  The two scans of
    [Promise.all] have no effect on the state. *)
Definition dev (w : World) (dir outDir entrypoint : string) : M unit :=
  ensureMinDenoVersion w ;;
  swallow (perform w UpdateCheck) ;;
  '(routePaths, islandPaths) ←
    lift (Promise_all (routes_scan_rejects_first w)
            (collectDir (fs w) (join [dir; "./routes"]))
            (collectDir (fs w) (join [dir; "./islands"]))) ;
  let newManifest := mkManifest routePaths islandPaths in
  manifestChanged ← detect_change w newManifest ;
  let manifestUrl := toFileUrl_href (join [outDir; "fresh.gen.ts"]) in
  perform w (Exists manifestUrl) ;;
  let hasOutDir := exists_ w manifestUrl in
  (if negb hasOutDir || manifestChanged
   then generate w outDir dir newManifest ;; mret ()
   else mret ()) ;;
  perform w (EmptyDir (join [outDir; "files"])) ;;
  perform w (Import manifestUrl) ;;
  perform w (ReadDenoConfig dir) ;;
  let entrypoints := collectEntrypoints (meta w) true (prepareIslands w) (plugins w) in
  perform w (Build entrypoints (join [outDir; "files"])) ;;
  perform w (WriteTextFile (join [outDir; "fresh.dependencies.js"])
                           ("export default " +:+ dependencies_json w)) ;;
  perform w (Import entrypoint).

(** How often [generate] was entered in a trace. *)
Definition is_Generate (ev : Event) : bool :=
  match ev with Generate _ _ _ => true | _ => false end.

Definition generate_calls (events : list Event) : nat :=
  length (filter (λ ev, is_Generate ev = true) events).

(** One cycle, started from the environment [env0]. *)
Definition run_dev (w : World) (dir outDir entrypoint : string)
  (env0 : gmap string string) : JsResult unit * State :=
  dev w dir outDir entrypoint {| env := env0; trace := [] |}.

(** * Auxiliary definitions for the properties *)

(** ** The two halves of a cycle, and what a computation emits *)

(** The part of [dev] that follows the change detection. *)
Definition dev_after_check (w : World) (dir outDir entrypoint : string)
  (newManifest : Manifest) (manifestChanged : bool) : M unit :=
  let manifestUrl := toFileUrl_href (join [outDir; "fresh.gen.ts"]) in
  perform w (Exists manifestUrl) ;;
  let hasOutDir := exists_ w manifestUrl in
  (if negb hasOutDir || manifestChanged
   then generate w outDir dir newManifest ;; mret ()
   else mret ()) ;;
  perform w (EmptyDir (join [outDir; "files"])) ;;
  perform w (Import manifestUrl) ;;
  perform w (ReadDenoConfig dir) ;;
  let entrypoints := collectEntrypoints (meta w) true (prepareIslands w) (plugins w) in
  perform w (Build entrypoints (join [outDir; "files"])) ;;
  perform w (WriteTextFile (join [outDir; "fresh.dependencies.js"])
                           ("export default " +:+ dependencies_json w)) ;;
  perform w (Import entrypoint).

(** The two scans of a cycle, as [Promise.all] settles them. *)
Definition scans (w : World) (dir : string)
  : JsResult (list string * list string) :=
  Promise_all (routes_scan_rejects_first w)
    (collectDir (fs w) (join [dir; "./routes"]))
    (collectDir (fs w) (join [dir; "./islands"])).

(** The state of a cycle started from [env0], right after it has recorded
    [newManifest]. *)
Definition recorded (env0 : gmap string string) (newManifest : Manifest)
  : State :=
  {| env := <[FRSH_DEV_PREVIOUS_MANIFEST := JSON.stringify newManifest]> env0;
     trace := [UpdateCheck;
               EnvSet FRSH_DEV_PREVIOUS_MANIFEST
                      (JSON.stringify newManifest)] |}.

(** [emits m P]: from any state, [m] leaves the environment as it is and
    appends to the trace a list of events that satisfies [P]. *)
Definition emits {A} (m : M A) (P : list Event → Prop) : Prop :=
  ∀ st, env (m st).2 = env st
        ∧ ∃ evs, trace (m st).2 = trace st ++ evs ∧ P evs.

(** A list of events in which [generate] is not entered. *)
Definition quiet (evs : list Event) : Prop := generate_calls evs = 0.

(** ** Relative paths made of valid names *)

Definition names_path (rel : string) : Prop :=
  ∃ names, names ≠ [] ∧ Forall (λ name, valid_name name = true) names
           ∧ rel = Array_join "/" names.

(** A file or directory name that the path functions leave alone: valid, not
    a dot segment, no backslash. *)
Definition plain_name (name : string) : bool :=
  valid_name name
  && negb (String.eqb name ".")
  && negb (String.eqb name "..")
  && forallb (λ c, negb (Ascii.eqb c Chars.backslash))
             (list_ascii_of_string name).

Fixpoint plain_entry (entry : FsEntry) : bool :=
  match entry with
  | FsFile name => plain_name name
  | FsDir name children => plain_name name && forallb plain_entry children
  end.

(** A relative path made of plain names. *)
Definition plain_path (rel : string) : Prop :=
  ∃ names, names ≠ [] ∧ Forall (λ name, plain_name name = true) names
           ∧ rel = Array_join "/" names.

(** An absolute path made of plain names, below the root: the shape of a
    project directory as [dirname] and [join] produce it. *)
Definition absolute_plain_path (path : string) : Prop :=
  ∃ names, names ≠ [] ∧ Forall (λ name, plain_name name = true) names
           ∧ path = "/" +:+ Array_join "/" names.

(** ** Import specifiers *)

(** A bare specifier begins with none of [/], [./] and [../]: it is looked
    up in the import map, not resolved against the importing module. *)
Definition is_bare (specifier : string) : bool :=
  negb (startsWith specifier "/"
        || startsWith specifier "./"
        || startsWith specifier "../").

(** ** Sample inputs *)

(** The text of the exported object for the routes [a.ts] and [b/c.ts] and
    no islands: the [routes] literal with its two keys, the empty [islands]
    literal and [baseUrl]. *)
Definition manifest_object_text : string :=
  "const manifest = {" +:+ NL +:+
  "  routes: {" +:+ NL +:+
  "    " +:+ DQ +:+ "./routes/a.ts" +:+ DQ +:+ ": $0," +:+ NL +:+
  "    " +:+ DQ +:+ "./routes/b/c.ts" +:+ DQ +:+ ": $1," +:+ NL +:+
  "  }," +:+ NL +:+
  "  islands: {" +:+ NL +:+
  "    " +:+ NL +:+
  "  }," +:+ NL +:+
  "  baseUrl: import.meta.url," +:+ NL +:+
  "};" +:+ NL.

(** Three file systems: nothing anywhere, a plain file everywhere, and one
    on which [Deno.stat] is refused. *)
Definition fs_missing : FileSystem := λ _, Throw (NotFound "No such file").

Definition fs_plain_file : FileSystem := λ _, Return RegularFile.

Definition fs_denied : FileSystem :=
  λ _, Throw (DenoError "PermissionDenied" "Permission denied").

(** A routes directory with two source files and a read-me, and no islands
    directory. *)
Definition sample_routes : list FsEntry :=
  [FsFile "index.tsx"; FsDir "api" [FsFile "joke.ts"; FsFile "README.md"]].

Definition sample_fs : FileSystem := λ path,
  if String.eqb path "/app/routes" then Return (Directory sample_routes)
  else Throw (NotFound "No such file or directory").

(** A routes directory in which [foo.ts] and [foo.tsx] compete. *)
Definition conflict_routes : list FsEntry :=
  [FsFile "foo.ts"; FsDir "api" [FsFile "joke.ts"]; FsFile "foo.tsx"].

Definition conflict_fs : FileSystem := λ path,
  if String.eqb path "/app/routes" then Return (Directory conflict_routes)
  else Throw (NotFound "No such file or directory").

Definition sample_meta : ImportMeta :=
  {| resolve_relative := λ specifier, "file:///fresh/src/dev/" +:+ specifier;
     in_import_map := λ _, false |}.

(** The project of [sample_fs]; the effects listed by [failing] reject, all
    others succeed. *)
Definition sample_world (manifest_exists : bool)
  (failing : Event → option JsError) : World :=
  {| version_gte_min := true;
     execPath_homebrew := false;
     fs := sample_fs;
     routes_scan_rejects_first := true;
     exists_ := λ _, manifest_exists;
     JSON_parse := λ text,
       if String.eqb text
            (JSON.stringify (mkManifest ["api/joke.ts"; "index.tsx"] []))
       then Return (manifest_value (mkManifest ["api/joke.ts"; "index.tsx"] []))
       else if String.eqb text "{}" then Return (JObject ∅)
       else Throw (SyntaxError "Unexpected token");
     fmt_stdout := λ text, text;
     fails := failing;
     meta := sample_meta;
     prepareIslands := [];
     plugins := [];
     dependencies_json := "{}" |}.

(** The environment a previous cycle over [sample_fs] leaves behind. *)
Definition recorded_env : gmap string string :=
  {[ FRSH_DEV_PREVIOUS_MANIFEST :=
       JSON.stringify (mkManifest ["api/joke.ts"; "index.tsx"] []) ]}.

(** The environment in which the variable holds the text of the empty
    object. *)
Definition empty_object_env : gmap string string :=
  {[ FRSH_DEV_PREVIOUS_MANIFEST := "{}" ]}.

(** The update check rejects, every other effect succeeds. *)
Definition update_check_fails : Event → option JsError := λ ev,
  match ev with
  | UpdateCheck => Some (Error "offline")
  | _ => None
  end.

(** The formatter rejects, every other effect succeeds. *)
Definition fmt_fails : Event → option JsError := λ ev,
  match ev with
  | Fmt _ => Some (DenoError "BrokenPipe" "formatter exited")
  | _ => None
  end.

(** Two islands with the same identifier, and two plugins with the same
    name that declare the same entry. *)
Definition counter_a : Island.t :=
  Island.mk "counter_default" "file:///app/islands/Counter.tsx".

Definition counter_b : Island.t :=
  Island.mk "counter_default" "file:///app/islands/counter.tsx".

Definition tailwind_v1 : Plugin.t :=
  Plugin.mk "tailwind" (Some {[ "main" := "file:///plugins/v1/main.ts" ]}).

Definition tailwind_v2 : Plugin.t :=
  Plugin.mk "tailwind" (Some {[ "main" := "file:///plugins/v2/main.ts" ]}).

(** Two plugins that declare no entrypoints. *)
Definition silent_plugins : list Plugin.t :=
  [Plugin.mk "twind" None; Plugin.mk "analytics" (Some ∅)].

(** A world like [sample_world] over another file system and with an
    outdated runtime or not. *)
Definition world_with (version_ok homebrew : bool) (files : FileSystem)
  (parse : string → JsResult JsValue) : World :=
  {| version_gte_min := version_ok;
     execPath_homebrew := homebrew;
     fs := files;
     routes_scan_rejects_first := true;
     exists_ := λ _, true;
     JSON_parse := parse;
     fmt_stdout := λ text, text;
     fails := λ _, None;
     meta := sample_meta;
     prepareIslands := [];
     plugins := [];
     dependencies_json := "{}" |}.

(** A routes directory with two conflicts; [b] is met twice before [a] is. *)
Definition double_conflict_routes : list FsEntry :=
  [FsFile "a.ts"; FsFile "b.ts"; FsFile "b.tsx"; FsFile "a.tsx"].

Definition double_conflict_fs : FileSystem := λ path,
  if String.eqb path "/app/routes" then Return (Directory double_conflict_routes)
  else Throw (NotFound "No such file or directory").

(** The routes of [sample_routes], listed in another order and under another
    project. *)
Definition reordered_routes : list FsEntry :=
  [FsDir "api" [FsFile "README.md"; FsFile "joke.ts"]; FsFile "index.tsx"].

Definition reordered_fs : FileSystem := λ path,
  if String.eqb path "/srv/site/routes" then Return (Directory reordered_routes)
  else Throw (NotFound "No such file or directory").

(** * Properties *)

(** ** Strings *)

Lemma append_cons c a b : String c a +:+ b = String c (a +:+ b).
Proof. reflexivity. Qed.

Lemma append_nil b : EmptyString +:+ b = b.
Proof. reflexivity. Qed.

Lemma append_assoc a b c : (a +:+ b) +:+ c = a +:+ (b +:+ c).
Proof. induction a as [|x a IH]; [done|]. by rewrite !append_cons, IH. Qed.

Lemma append_nil_r a : a +:+ EmptyString = a.
Proof. induction a as [|x a IH]; [done|]. by rewrite append_cons, IH. Qed.

Lemma append_split a b pre t : b = pre +:+ t → a +:+ b = (a +:+ pre) +:+ t.
Proof. intros ->. by rewrite append_assoc. Qed.

Lemma list_ascii_append a b :
  list_ascii_of_string (a +:+ b)
  = list_ascii_of_string a ++ list_ascii_of_string b.
Proof. induction a as [|x a IH]; [done|]. rewrite append_cons. simpl. by f_equal. Qed.

(** ** The change detector *)

Section arraysEqual.
Context {T : Type} `{EqDecision T}.

Lemma arraysEqual_loop_true (a b : list T) i n :
  arraysEqual_loop a b i n = true ↔ ∀ j, i ≤ j < i + n → a !! j = b !! j.
Proof.
  revert i. induction n as [|n IH]; intros i; simpl.
  - split; [intros _ j ?; lia | done].
  - case_bool_decide as Hi.
    + split; [done|]. intros Hall. destruct Hi. apply Hall. lia.
    + rewrite IH. split.
      * intros Hall j Hj. destruct (decide (j = i)) as [->|]; [done|].
        apply Hall. lia.
      * intros Hall j Hj. apply Hall. lia.
Qed.

Lemma arraysEqual_true (a b : list T) : arraysEqual a b = true ↔ a = b.
Proof.
  unfold arraysEqual. case_bool_decide as Hlen.
  - split; [done|]. intros ->. by destruct Hlen.
  - rewrite arraysEqual_loop_true. split.
    + intros Hall. apply list_eq. intros j.
      destruct (decide (j < length a)) as [Hj|Hj]; [apply Hall; lia|].
      rewrite !lookup_ge_None_2; [done|lia..].
    + by intros ->.
Qed.

Lemma arraysEqual_false (a b : list T) : arraysEqual a b = false ↔ a ≠ b.
Proof.
  rewrite <- arraysEqual_true. destruct (arraysEqual a b); naive_solver.
Qed.
End arraysEqual.

Lemma Manifest_eq (m1 m2 : Manifest) :
  m1 = m2 ↔ routes m1 = routes m2 ∧ islands m1 = islands m2.
Proof. destruct m1, m2; naive_solver. Qed.

Lemma manifestChanged_false newManifest currentManifest :
  manifestChanged newManifest currentManifest = false
  ↔ routes newManifest = routes currentManifest
    ∧ islands newManifest = islands currentManifest.
Proof.
  unfold manifestChanged.
  rewrite orb_false_iff, !negb_false_iff, !arraysEqual_true. done.
Qed.

Lemma manifestChanged_true newManifest currentManifest :
  manifestChanged newManifest currentManifest = true
  ↔ newManifest ≠ currentManifest.
Proof.
  rewrite Manifest_eq, <- manifestChanged_false.
  destruct (manifestChanged _ _); naive_solver.
Qed.

(** C2.  The change detector reports "unchanged" exactly when the two routes
    sequences are equal (same length, same element at every index) and the
    two islands sequences are equal; every other pair of manifests, among
    them a reordering of the same elements, is reported as changed. *)
Theorem manifestChanged_iff (previous current : Manifest) :
  (manifestChanged current previous = false
   ↔ (length (routes current) = length (routes previous)
      ∧ ∀ i, routes current !! i = routes previous !! i)
     ∧ (length (islands current) = length (islands previous)
        ∧ ∀ i, islands current !! i = islands previous !! i))
  ∧ (manifestChanged current previous = true
     ↔ routes current ≠ routes previous ∨ islands current ≠ islands previous)
  ∧ (routes current ≡ₚ routes previous ∧ routes current ≠ routes previous
     → manifestChanged current previous = true).
Proof.
  assert (Hlist : ∀ a b : list string,
             a = b ↔ length a = length b ∧ ∀ i, a !! i = b !! i).
  { intros a b. split; [by intros ->|]. intros [_ Hall]. by apply list_eq. }
  split; [|split].
  - rewrite manifestChanged_false, <- !Hlist. done.
  - rewrite manifestChanged_true, Manifest_eq.
    destruct (decide (routes current = routes previous));
      destruct (decide (islands current = islands previous)); naive_solver.
  - intros [_ Hne]. apply manifestChanged_true. rewrite Manifest_eq.
    naive_solver.
Qed.

Lemma manifestChanged_iff_witness :
  (["a"; "b"] ≡ₚ ["b"; "a"] ∧ ["a"; "b"] ≠ ["b"; "a"])
  ∧ manifestChanged (mkManifest ["a"; "b"] []) (mkManifest ["b"; "a"] []) = true.
Proof.
  assert (H : ["a"; "b"] ≡ₚ ["b"; "a"] ∧ ["a"; "b"] ≠ ["b"; "a"]).
  { split; [apply perm_swap | discriminate]. }
  split; [exact H|].
  exact (proj2 (proj2 (manifestChanged_iff (mkManifest ["b"; "a"] [])
                                           (mkManifest ["a"; "b"] []))) H).
Defined.

(** The three examples of the change detector. *)
Example hasChanged_same :
  manifestChanged (mkManifest ["a"] []) (mkManifest ["a"] []) = false.
Proof. reflexivity. Qed.

Example hasChanged_longer :
  manifestChanged (mkManifest ["a"; "b"] []) (mkManifest ["a"] []) = true.
Proof. reflexivity. Qed.

Example hasChanged_reordered :
  manifestChanged (mkManifest ["b"; "a"] []) (mkManifest ["a"; "b"] []) = true.
Proof. reflexivity. Qed.

(** ** The manifest generator *)

Lemma replace_char_is_dot c :
  Ascii.eqb (if Ascii.eqb c Chars.backslash then Chars.slash else c) "."
  = Ascii.eqb c ".".
Proof.
  destruct (Ascii.eqb c Chars.backslash) eqn:Hc; [|done].
  apply Ascii.eqb_eq in Hc as ->. done.
Qed.

Lemma startsWith_dotdot_replace s :
  startsWith (replace_backslashes s) ".." = startsWith s "..".
Proof.
  destruct s as [|a [|b s]]; cbn [startsWith replace_backslashes]; [done|..];
    by rewrite !replace_char_is_dot.
Qed.

Lemma replace_backslashes_clean s :
  Chars.backslash ∉ list_ascii_of_string (replace_backslashes s).
Proof.
  induction s as [|c s IH]; simpl; [apply not_elem_of_nil|].
  apply not_elem_of_cons. split; [|done].
  destruct (Ascii.eqb c Chars.backslash) eqn:Hc; [done|].
  apply Ascii.eqb_neq in Hc. congruence.
Qed.

(** C9.  The claim fails on a path whose first segment begins with two dots
    without being [..].  With the output directory [/app] and the project in
    [/app/..site], the import path of the route [index.tsx] is
    [..site/routes/index.tsx]; [toImportSpecifier] takes the leading dots
    for a parent-relative path and returns it as it is, which is a bare
    specifier, and the generated module imports the route under it. *)
Theorem toImportSpecifier_bare_specifier :
  join [relative "/app" "/app/..site"; "routes"; "index.tsx"]
  = "..site/routes/index.tsx"
  ∧ toImportSpecifier "..site/routes/index.tsx" = "..site/routes/index.tsx"
  ∧ is_bare (toImportSpecifier "..site/routes/index.tsx") = true
  ∧ includes (generate_output (relative "/app" "/app/..site")
                              (mkManifest ["index.tsx"] []))
             ("from " +:+ DQ +:+ "..site/routes/index.tsx" +:+ DQ)
    = true.
Proof. vm_compute. repeat split. Qed.

Lemma entry_lines_render alias kind files :
  imap (entry_line alias kind) files
  = render_entry <$> object_entries alias kind files.
Proof.
  unfold object_entries. rewrite fmap_imap. apply imap_ext.
  intros i file _. unfold entry_line, render_entry. simpl.
  by rewrite !append_assoc.
Qed.

(** C1, as the code has it.  For routes ["a.ts"; "b/c.ts"] and no islands,
    whatever the relative location of the project, the generated text holds a
    [routes] object literal with exactly the two keys "./routes/a.ts" and
    "./routes/b/c.ts", mapped to the distinct aliases $0 and $1, followed by
    an empty [islands] literal and the [baseUrl] field. *)
Theorem generate_routes_object (rel : string) :
  object_entries "$" "routes" ["a.ts"; "b/c.ts"]
  = [("./routes/a.ts", "$0"); ("./routes/b/c.ts", "$1")]
  ∧ "$0" ≠ "$1"
  ∧ (∃ pre post,
        generate_output rel (mkManifest ["a.ts"; "b/c.ts"] [])
        = pre +:+ manifest_object_text +:+ post)
  ∧ includes manifest_object_text "baseUrl: import.meta.url" = true.
Proof.
  split; [reflexivity|]. split; [discriminate|]. split; [|reflexivity].
  eexists _, (NL +:+ "export default manifest;" +:+ NL).
  unfold generate_output.
  do 12 eapply append_split.
  refine (eq_trans _ (eq_sym (append_nil _))).
  vm_compute. reflexivity.
Qed.

(** C1 as stated does not hold: the keys are not "./a.ts" and "./b/c.ts",
    and the generated text does not even contain the quoted key "./a.ts". *)
Lemma generate_routes_keys_counterexample :
  ¬ (∃ alias1 alias2,
        alias1 ≠ alias2
        ∧ object_entries "$" "routes" (routes (mkManifest ["a.ts"; "b/c.ts"] []))
          = [("./a.ts", alias1); ("./b/c.ts", alias2)])
  ∧ includes (generate_output ".." (mkManifest ["a.ts"; "b/c.ts"] []))
             (DQ +:+ "./a.ts" +:+ DQ) = false.
Proof.
  split; [|by vm_compute].
  intros (alias1 & alias2 & _ & Hkeys). vm_compute in Hkeys. discriminate.
Qed.

(** ** The directory collector: the outcome of [Deno.stat] *)

(** C5.  When [Deno.stat] rejects with a not-found error, and when the path
    exists but is not a directory, [collectDir] returns the empty sequence;
    when [Deno.stat] rejects with any other error, [collectDir] rejects with
    that same error. *)
Theorem collectDir_stat (fs : FileSystem) (dir : string) :
  (∀ message, fs dir = Throw (NotFound message) → collectDir fs dir = Return [])
  ∧ (fs dir = Return RegularFile → collectDir fs dir = Return [])
  ∧ (∀ err, fs dir = Throw err → instanceof_NotFound err = false
            → collectDir fs dir = Throw err).
Proof.
  unfold collectDir, Deno_stat. repeat split.
  - by intros message ->.
  - by intros ->.
  - by intros err -> ->.
Qed.

Lemma collectDir_stat_witness :
  collectDir fs_missing "/app/routes" = Return []
  ∧ collectDir fs_plain_file "/app/routes" = Return []
  ∧ collectDir fs_denied "/app/routes"
    = Throw (DenoError "PermissionDenied" "Permission denied").
Proof.
  split; [|split].
  - exact (proj1 (collectDir_stat fs_missing "/app/routes")
             "No such file" eq_refl).
  - exact (proj1 (proj2 (collectDir_stat fs_plain_file "/app/routes")) eq_refl).
  - exact (proj2 (proj2 (collectDir_stat fs_denied "/app/routes"))
             _ eq_refl eq_refl).
Defined.

(** ** The change detector on a value of unknown shape *)

Lemma to_uint_not_Nil n : Nat.to_uint n ≠ Decimal.Nil.
Proof.
  intros Hnil. pose proof (DecimalNat.Unsigned.of_to n) as Hof.
  rewrite Hnil in Hof. cbn in Hof. subst n. discriminate Hnil.
Qed.

Lemma Number_toString_parse n :
  NilZero.uint_of_string (Number_toString n) = Some (Nat.to_uint n).
Proof. apply NilZero.usu, to_uint_not_Nil. Qed.

Lemma array_index_toString i : array_index (Number_toString i) = Some i.
Proof.
  unfold array_index. rewrite Number_toString_parse. cbv zeta.
  by rewrite DecimalNat.Unsigned.of_to, String.eqb_refl.
Qed.

Lemma Number_toString_not_length i :
  String.eqb (Number_toString i) "length" = false.
Proof.
  apply String.eqb_neq. intros Heq.
  pose proof (Number_toString_parse i) as Hi. rewrite Heq in Hi.
  discriminate Hi.
Qed.

Lemma Number_is_length_of n m :
  Number_is_length n (Number_of_length m) = bool_decide (n = m).
Proof.
  unfold Number_is_length, Number_of_length. cbn.
  case_bool_decide; [apply Z.eqb_eq | apply Z.eqb_neq]; lia.
Qed.

Lemma JsResult_bind_run {A B} (r : JsResult A) (f : A → JsResult B) :
  r ≫= f = match r with Return a => f a | Throw err => Throw err end.
Proof. reflexivity. Qed.

Lemma Get_array_element elements i :
  Get (JArray elements) (Number_toString i)
  = Return (default JUndefined (elements !! i)).
Proof.
  unfold Get. by rewrite Number_toString_not_length, array_index_toString.
Qed.

Lemma element_differs_string (x y : option string) :
  element_differs x (default JUndefined (JString <$> y))
  = bool_decide (x ≠ y).
Proof.
  destruct x as [s|], y as [t|]; cbn; try done.
  destruct (String.eqb_spec s t) as [->|Hne]; cbn; symmetry.
  - by apply bool_decide_eq_false_2; intros [].
  - apply bool_decide_eq_true_2. congruence.
Qed.

Lemma arraysEqual_untyped_loop_array (a b : list string) i n :
  arraysEqual_untyped_loop a (JArray (JString <$> b)) i n
  = Return (arraysEqual_loop a b i n).
Proof.
  revert i. induction n as [|n IH]; intros i; [done|].
  cbn [arraysEqual_untyped_loop arraysEqual_loop].
  rewrite Get_array_element, JsResult_bind_run, list_lookup_fmap.
  rewrite element_differs_string.
  destruct (bool_decide (a !! i ≠ b !! i)); [done | apply IH].
Qed.

(** On an array of strings, the code is [arraysEqual] at its declared
    type. *)
Lemma arraysEqual_untyped_array (a b : list string) :
  arraysEqual_untyped a (JArray (JString <$> b)) = Return (arraysEqual a b).
Proof.
  unfold arraysEqual_untyped, arraysEqual.
  cbn [Get String.eqb Ascii.eqb Bool.eqb]. rewrite JsResult_bind_run.
  cbn [length_differs].
  rewrite Number_is_length_of, length_fmap.
  destruct (decide (length a = length b)) as [Hlen|Hlen].
  - rewrite bool_decide_eq_true_2, bool_decide_eq_false_2 by auto.
    apply arraysEqual_untyped_loop_array.
  - by rewrite bool_decide_eq_false_2, bool_decide_eq_true_2 by auto.
Qed.

(** On the object of a manifest, the comparison is [manifestChanged]. *)
Lemma manifestChanged_untyped_manifest newManifest (currentManifest : Manifest) :
  manifestChanged_untyped newManifest currentManifest
  = Return (manifestChanged newManifest currentManifest).
Proof.
  unfold manifestChanged_untyped, manifestChanged, manifest_value.
  cbn [Get].
  rewrite lookup_insert_eq, lookup_insert_ne, lookup_singleton_eq by done.
  cbn [default from_option id mbind JsResult_bind].
  rewrite !arraysEqual_untyped_array. cbn [mbind JsResult_bind].
  by destruct (arraysEqual (routes newManifest) (routes currentManifest)).
Qed.

(** An object without a [routes] property: [arraysEqual] throws when it
    reads the length of [undefined]. *)
Lemma manifestChanged_untyped_no_routes newManifest properties :
  properties !! "routes" = None →
  manifestChanged_untyped newManifest (JObject properties)
  = Throw (cannot_read "undefined" "length").
Proof.
  intros Hnone. unfold manifestChanged_untyped. cbn [Get].
  by rewrite Hnone.
Qed.

(** ** The dev cycle *)

Lemma bind_run {A B} (m : M A) (f : A → M B) st :
  (m ≫= f) st
  = match m st with
    | (Return a, st') => f a st'
    | (Throw err, st') => (Throw err, st')
    end.
Proof. reflexivity. Qed.

Lemma detect_change_run w newManifest st currentManifest :
  load_currentManifest w (env st !! FRSH_DEV_PREVIOUS_MANIFEST)
  = Return currentManifest →
  detect_change w newManifest st
  = (manifestChanged_untyped newManifest currentManifest,
     {| env := <[FRSH_DEV_PREVIOUS_MANIFEST := JSON.stringify newManifest]> (env st);
        trace := trace st
                 ++ [EnvSet FRSH_DEV_PREVIOUS_MANIFEST (JSON.stringify newManifest)] |}).
Proof.
  intros Hload. unfold detect_change.
  rewrite bind_run. unfold Deno_env_get at 1. cbv beta iota.
  rewrite bind_run. unfold lift at 1. rewrite Hload. cbv beta iota.
  reflexivity.
Qed.

Lemma detect_change_throw w newManifest st err :
  load_currentManifest w (env st !! FRSH_DEV_PREVIOUS_MANIFEST) = Throw err →
  detect_change w newManifest st = (Throw err, st).
Proof.
  intros Hload. unfold detect_change.
  rewrite bind_run. unfold Deno_env_get at 1. cbv beta iota.
  rewrite bind_run. unfold lift at 1. rewrite Hload. reflexivity.
Qed.

Lemma manifestChanged_empty newManifest :
  manifestChanged newManifest (mkManifest [] [])
  = bool_decide (routes newManifest ≠ [] ∨ islands newManifest ≠ []).
Proof.
  destruct (manifestChanged _ _) eqn:Hch; symmetry.
  - apply bool_decide_eq_true. apply manifestChanged_true in Hch.
    rewrite Manifest_eq in Hch. simpl in Hch.
    destruct (decide (routes newManifest = [])); [|by left].
    destruct (decide (islands newManifest = [])); [|by right].
    by destruct Hch.
  - apply bool_decide_eq_false. apply manifestChanged_false in Hch.
    simpl in Hch. naive_solver.
Qed.

(** C7.  When the environment variable holds no previous manifest, the
    change detector compares against empty routes and islands lists, so it
    answers "changed" exactly when the new manifest has a route or an
    island. *)
Theorem detect_change_first_run (w : World) (newManifest : Manifest)
  (st : State) :
  env st !! FRSH_DEV_PREVIOUS_MANIFEST = None →
  load_currentManifest w (env st !! FRSH_DEV_PREVIOUS_MANIFEST)
  = Return (mkManifest [] [])
  ∧ (∃ st',
        detect_change w newManifest st
        = (Return (bool_decide (routes newManifest ≠ []
                                ∨ islands newManifest ≠ [])), st'))
  ∧ (manifestChanged newManifest (mkManifest [] []) = true
     ↔ routes newManifest ≠ [] ∨ islands newManifest ≠ []).
Proof.
  intros Hnone.
  assert (Hload : load_currentManifest w (env st !! FRSH_DEV_PREVIOUS_MANIFEST)
                  = Return (mkManifest [] [])) by by rewrite Hnone.
  split; [done|]. split.
  - eexists. rewrite (detect_change_run _ _ _ _ Hload).
    by rewrite manifestChanged_untyped_manifest, manifestChanged_empty.
  - rewrite manifestChanged_empty. apply bool_decide_eq_true.
Qed.

Lemma detect_change_first_run_witness :
  (∅ : gmap string string) !! FRSH_DEV_PREVIOUS_MANIFEST = None
  ∧ (manifestChanged (mkManifest ["index.tsx"] []) (mkManifest [] []) = true
     ↔ ["index.tsx"] ≠ [] ∨ @nil string ≠ []).
Proof.
  split; [reflexivity|].
  exact (proj2 (proj2 (detect_change_first_run
                         (sample_world true (λ _, None))
                         (mkManifest ["index.tsx"] [])
                         {| env := ∅; trace := [] |} eq_refl))).
Defined.

Lemma perform_run w ev st :
  perform w ev st
  = (match fails w ev with Some err => Throw err | None => Return () end,
     {| env := env st; trace := trace st ++ [ev] |}).
Proof. unfold perform. by destruct (fails w ev). Qed.

Lemma swallow_perform_run w ev st :
  swallow (perform w ev) st
  = (Return (), {| env := env st; trace := trace st ++ [ev] |}).
Proof. unfold swallow. by rewrite perform_run. Qed.

Lemma generate_calls_app t1 t2 :
  generate_calls (t1 ++ t2) = generate_calls t1 + generate_calls t2.
Proof. unfold generate_calls. by rewrite filter_app, length_app. Qed.

(** *** Which effects a computation attempts *)

Lemma quiet_nil : quiet [].
Proof. reflexivity. Qed.

Lemma quiet_app evs1 evs2 : quiet evs1 → quiet evs2 → quiet (evs1 ++ evs2).
Proof. unfold quiet. rewrite generate_calls_app. lia. Qed.

Lemma quiet_not_elem evs directory cwd manifest :
  quiet evs → Generate directory cwd manifest ∉ evs.
Proof.
  unfold quiet, generate_calls. intros Hq Hin.
  assert (Hf : Generate directory cwd manifest
               ∈ filter (λ ev, is_Generate ev = true) evs).
  { apply list_elem_of_filter. by split. }
  destruct (filter _ evs); [by apply elem_of_nil in Hf | discriminate].
Qed.

Lemma emits_ret {A} (a : A) : emits (mret a) quiet.
Proof. intros st. split; [done|]. exists []. by rewrite app_nil_r. Qed.

Lemma emits_perform w ev : is_Generate ev = false → emits (perform w ev) quiet.
Proof.
  intros Hev st. rewrite perform_run. split; [done|].
  exists [ev]. split; [done|]. unfold quiet, generate_calls. simpl.
  rewrite filter_cons_False; [done|]. by rewrite Hev.
Qed.

Lemma emits_bind {A B} (m : M A) (f : A → M B) :
  emits m quiet → (∀ a, emits (f a) quiet) → emits (m ≫= f) quiet.
Proof.
  intros Hm Hf st. rewrite bind_run.
  destruct (Hm st) as (Henv & evs & Htr & Hq).
  destruct (m st) as [[a|err] st1]; simpl in *.
  - destruct (Hf a st1) as (Henv' & evs' & Htr' & Hq').
    split; [congruence|]. exists (evs ++ evs').
    rewrite Htr', Htr, app_assoc. split; [done|]. by apply quiet_app.
  - split; [done|]. by exists evs.
Qed.

(** A computation that first attempts [ev] and is quiet afterwards. *)
Lemma emits_perform_bind {B} w ev (f : unit → M B) :
  (∀ a, emits (f a) quiet) →
  emits (perform w ev ≫= f) (λ evs, ∃ evs', evs = ev :: evs' ∧ quiet evs').
Proof.
  intros Hf st. rewrite bind_run, perform_run.
  destruct (fails w ev).
  - split; [done|]. exists [ev]. split; [done|]. exists []. auto using quiet_nil.
  - destruct (Hf () {| env := env st; trace := trace st ++ [ev] |})
      as (Henv & evs & Htr & Hq).
    split; [done|]. exists (ev :: evs). rewrite Htr. simpl.
    rewrite <- app_assoc. split; [done|]. by exists evs.
Qed.

Ltac quiet_steps :=
  repeat first
    [ apply emits_bind
    | apply emits_perform; reflexivity
    | apply emits_ret
    | match goal with |- ∀ _, _ => intros ?; cbv beta end ].

(** [generate] leaves the environment alone, and what it appends to the
    trace is its own entry followed by effects among which there is neither
    another entry nor the emptying of a directory. *)
Lemma generate_run w directory cwd manifest st :
  env (generate w directory cwd manifest st).2 = env st
  ∧ ∃ evs,
      trace (generate w directory cwd manifest st).2
      = trace st ++ Generate directory cwd manifest :: evs
      ∧ quiet evs
      ∧ ∀ path, EmptyDir path ∉ evs.
Proof.
  set (run := generate w directory cwd manifest st).
  assert (Hrun : run = generate w directory cwd manifest st) by done.
  clearbody run. unfold generate in Hrun.
  rewrite bind_run in Hrun. unfold enter at 1 in Hrun. cbv beta iota in Hrun.
  repeat (rewrite bind_run, perform_run in Hrun;
          match type of Hrun with
          | context [fails w ?ev] => destruct (fails w ev)
          end; cbv beta iota in Hrun;
          [ subst run; split; [reflexivity|]; cbn [snd trace];
            rewrite <- ?app_assoc; eexists; split; [reflexivity|];
            split; [reflexivity|];
            intros path; cbn [app]; rewrite !not_elem_of_cons;
            repeat split; try discriminate; apply not_elem_of_nil
          | ]).
  subst run. split; [reflexivity|]. cbn [snd trace]. rewrite <- ?app_assoc.
  eexists. split; [reflexivity|]. split; [reflexivity|].
  intros path. cbn [app]. rewrite !not_elem_of_cons.
  repeat split; try discriminate; apply not_elem_of_nil.
Qed.

Lemma dev_unfold w dir outDir entrypoint :
  dev w dir outDir entrypoint
  = (ensureMinDenoVersion w ;;
     swallow (perform w UpdateCheck) ;;
     '(routePaths, islandPaths) ← lift (scans w dir) ;
     manifestChanged ← detect_change w (mkManifest routePaths islandPaths) ;
     dev_after_check w dir outDir entrypoint
       (mkManifest routePaths islandPaths) manifestChanged).
Proof. reflexivity. Qed.

(** The second half of a cycle: the existence test, then [generate] when the
    test has not rejected and the manifest file is missing or the manifest
    changed, then quiet effects, the first of which empties the files
    directory. *)
Lemma dev_after_check_trace w dir outDir entrypoint newManifest changed st :
  let manifestUrl := toFileUrl_href (join [outDir; "fresh.gen.ts"]) in
  let run := dev_after_check w dir outDir entrypoint newManifest changed st in
  env run.2 = env st
  ∧ ∃ gen rest,
      trace run.2 = trace st ++ Exists manifestUrl :: gen ++ rest
      ∧ quiet rest
      ∧ ((gen = []
          ∧ (fails w (Exists manifestUrl) = None
             → negb (exists_ w manifestUrl) || changed = false))
         ∨ (∃ evs, gen = Generate outDir dir newManifest :: evs
                   ∧ quiet evs
                   ∧ fails w (Exists manifestUrl) = None
                   ∧ negb (exists_ w manifestUrl) || changed = true
                   ∧ (∀ path, EmptyDir path ∉ evs)
                   ∧ ((rest = [] ∧ ∃ err, run.1 = Throw err)
                      ∨ ∃ rest', rest = EmptyDir (join [outDir; "files"])
                                        :: rest'))).
Proof.
  intros manifestUrl run.
  assert (Hrun : run = dev_after_check w dir outDir entrypoint newManifest
                         changed st) by done.
  clearbody run. unfold dev_after_check in Hrun. fold manifestUrl in Hrun.
  rewrite bind_run, perform_run in Hrun.
  destruct (fails w (Exists manifestUrl)) as [err|] eqn:Hex.
  { subst run. split; [done|]. exists [], []. simpl. split; [done|].
    split; [apply quiet_nil|]. left. split; [done|]. discriminate. }
  set (st1 := {| env := env st; trace := trace st ++ [Exists manifestUrl] |})
    in Hrun.
  cbv beta iota in Hrun.
  destruct (negb (exists_ w manifestUrl) || changed) eqn:Hcond.
  - rewrite bind_run, bind_run in Hrun.
    destruct (generate_run w outDir dir newManifest st1)
      as (Henv1 & evs & Htr1 & Hq1 & Hno1).
    destruct (generate w outDir dir newManifest st1) as [[path|err] st2];
      cbn [snd] in Henv1, Htr1; cbv beta iota in Hrun.
    + unfold mret at 1, M_ret at 1 in Hrun. cbv beta iota in Hrun.
      match type of Hrun with
      | _ = (perform w ?ev ≫= ?f) st2 =>
          destruct (emits_perform_bind w ev f ltac:(quiet_steps) st2)
            as (Henv2 & evs2 & Htr2 & rest' & -> & Hq2)
      end.
      rewrite <- Hrun in Henv2, Htr2.
      split; [by rewrite Henv2, Henv1|].
      exists (Generate outDir dir newManifest :: evs),
             (EmptyDir (join [outDir; "files"]) :: rest').
      rewrite Htr2, Htr1. subst st1. cbn [trace].
      rewrite <- !app_assoc. cbn [app].
      split; [done|]. split; [|right].
      { unfold quiet. change (EmptyDir (join [outDir; "files"]) :: rest')
          with ([EmptyDir (join [outDir; "files"])] ++ rest').
        rewrite generate_calls_app, Hq2. reflexivity. }
      exists evs. repeat split; try done. right. by exists rest'.
    + subst run. split; [done|].
      exists (Generate outDir dir newManifest :: evs), [].
      cbn [snd fst]. rewrite Htr1. subst st1. cbn [trace].
      rewrite <- !app_assoc, app_nil_r. cbn [app].
      split; [done|]. split; [apply quiet_nil|]. right.
      exists evs. repeat split; try done. left. split; [done|]. by exists err.
  - match type of Hrun with
    | _ = (?m ≫= ?f) st1 =>
        destruct (emits_bind m f (emits_ret ())
                    ltac:(quiet_steps) st1)
          as (Henv & evs & Htr & Hq)
    end.
    rewrite <- Hrun in Henv, Htr.
    split; [by rewrite Henv|].
    exists [], evs. rewrite Htr. subst st1. simpl. rewrite <- app_assoc.
    split; [done|]. split; [done|]. by left.
Qed.

(** A cycle on a supported runtime, up to the change detection: it stops at
    the scans or at the load of the recorded manifest with nothing but the
    update check attempted, or it records the new manifest and then either
    stops at the comparison or goes on with [dev_after_check]. *)
Lemma dev_run_unfold w dir outDir entrypoint env0 :
  version_gte_min w = true →
  run_dev w dir outDir entrypoint env0
  = match scans w dir with
    | Throw err => (Throw err, {| env := env0; trace := [UpdateCheck] |})
    | Return (routePaths, islandPaths) =>
        let newManifest := mkManifest routePaths islandPaths in
        match load_currentManifest w (env0 !! FRSH_DEV_PREVIOUS_MANIFEST) with
        | Throw err => (Throw err, {| env := env0; trace := [UpdateCheck] |})
        | Return currentManifest =>
            match manifestChanged_untyped newManifest currentManifest with
            | Throw err => (Throw err, recorded env0 newManifest)
            | Return changed =>
                dev_after_check w dir outDir entrypoint newManifest changed
                  (recorded env0 newManifest)
            end
        end
    end.
Proof.
  intros Hversion. unfold run_dev. rewrite dev_unfold.
  unfold ensureMinDenoVersion. rewrite Hversion. cbn [negb].
  rewrite bind_run. unfold mret at 1, M_ret at 1. cbv beta iota.
  rewrite bind_run, swallow_perform_run. cbv beta iota.
  rewrite bind_run. unfold lift at 1.
  destruct (scans w dir) as [[routePaths islandPaths]|err]; [|done].
  cbv beta iota zeta. rewrite bind_run. cbn [env trace app].
  destruct (load_currentManifest w (env0 !! FRSH_DEV_PREVIOUS_MANIFEST))
    as [currentManifest|err] eqn:Hload.
  - rewrite (detect_change_run _ _ _ currentManifest) by exact Hload.
    by destruct (manifestChanged_untyped _ currentManifest).
  - by rewrite (detect_change_throw _ _ _ err) by exact Hload.
Qed.

Lemma scans_return w dir routePaths islandPaths :
  collectDir (fs w) (join [dir; "./routes"]) = Return routePaths →
  collectDir (fs w) (join [dir; "./islands"]) = Return islandPaths →
  scans w dir = Return (routePaths, islandPaths).
Proof. unfold scans. by intros -> ->. Qed.

(** A cycle that gets past the comparison with a recorded manifest. *)
Lemma dev_run_reaches_check w dir outDir entrypoint env0
  routePaths islandPaths (currentManifest : Manifest) :
  version_gte_min w = true →
  collectDir (fs w) (join [dir; "./routes"]) = Return routePaths →
  collectDir (fs w) (join [dir; "./islands"]) = Return islandPaths →
  load_currentManifest w (env0 !! FRSH_DEV_PREVIOUS_MANIFEST)
  = Return (manifest_value currentManifest) →
  run_dev w dir outDir entrypoint env0
  = dev_after_check w dir outDir entrypoint
      (mkManifest routePaths islandPaths)
      (manifestChanged (mkManifest routePaths islandPaths) currentManifest)
      (recorded env0 (mkManifest routePaths islandPaths)).
Proof.
  intros Hversion Hroutes Hislands Hload.
  rewrite dev_run_unfold by done.
  rewrite (scans_return _ _ _ _ Hroutes Hislands). cbv zeta.
  by rewrite Hload, manifestChanged_untyped_manifest.
Qed.

(** C6.  In a cycle that reaches the decision (the version check, both
    directory scans, the load of a previously recorded manifest and the
    existence test succeed; the update check may succeed or reject),
    [generate] is entered exactly once when the manifest file is missing or
    the collected manifest differs from the recorded one, and is not entered
    at all when the file exists and the manifest is unchanged. *)
Theorem dev_generates_exactly_when (w : World) (dir outDir entrypoint : string)
  (env0 : gmap string string) (routePaths islandPaths : list string)
  (currentManifest : Manifest) :
  version_gte_min w = true →
  collectDir (fs w) (join [dir; "./routes"]) = Return routePaths →
  collectDir (fs w) (join [dir; "./islands"]) = Return islandPaths →
  load_currentManifest w (env0 !! FRSH_DEV_PREVIOUS_MANIFEST)
  = Return (manifest_value currentManifest) →
  fails w (Exists (toFileUrl_href (join [outDir; "fresh.gen.ts"]))) = None →
  (Generate outDir dir (mkManifest routePaths islandPaths)
     ∈ trace (run_dev w dir outDir entrypoint env0).2
   ↔ exists_ w (toFileUrl_href (join [outDir; "fresh.gen.ts"])) = false
     ∨ mkManifest routePaths islandPaths ≠ currentManifest)
  ∧ generate_calls (trace (run_dev w dir outDir entrypoint env0).2)
    = (if bool_decide
            (exists_ w (toFileUrl_href (join [outDir; "fresh.gen.ts"])) = false
             ∨ mkManifest routePaths islandPaths ≠ currentManifest)
       then 1 else 0)
  ∧ (exists_ w (toFileUrl_href (join [outDir; "fresh.gen.ts"])) = true
     → mkManifest routePaths islandPaths = currentManifest
     → ∀ directory cwd manifest,
         Generate directory cwd manifest
           ∉ trace (run_dev w dir outDir entrypoint env0).2).
Proof.
  intros Hversion Hroutes Hislands Hload Hexists.
  set (manifestUrl := toFileUrl_href (join [outDir; "fresh.gen.ts"])) in *.
  set (newManifest := mkManifest routePaths islandPaths).
  assert (Hcond : negb (exists_ w manifestUrl)
                  || manifestChanged newManifest currentManifest = true
                  ↔ exists_ w manifestUrl = false
                    ∨ newManifest ≠ currentManifest).
  { rewrite orb_true_iff, negb_true_iff, manifestChanged_true. done. }
  rewrite (dev_run_reaches_check w dir outDir entrypoint env0
             routePaths islandPaths currentManifest
             Hversion Hroutes Hislands Hload).
  fold newManifest.
  destruct (dev_after_check_trace w dir outDir entrypoint newManifest
              (manifestChanged newManifest currentManifest)
              (recorded env0 newManifest))
    as (_ & gen & rest & Htr & Hq & Hgen).
  fold manifestUrl in Htr, Hgen. cbv zeta in Htr.
  rewrite Htr. clear Htr. cbn [recorded trace].
  destruct Hgen as [[-> Hno]|(evs & -> & Hqe & _ & Hyes & _)].
  - specialize (Hno Hexists).
    assert (Hnot : ¬ (exists_ w manifestUrl = false
                      ∨ newManifest ≠ currentManifest)).
    { rewrite <- Hcond, Hno. discriminate. }
    assert (Hnone : ∀ directory cwd manifest,
               Generate directory cwd manifest
                 ∉ [UpdateCheck;
                    EnvSet FRSH_DEV_PREVIOUS_MANIFEST (JSON.stringify newManifest)]
                   ++ Exists manifestUrl :: [] ++ rest).
    { intros directory cwd manifest. simpl.
      rewrite !not_elem_of_cons. repeat split; try discriminate.
      by apply quiet_not_elem. }
    split; [|split].
    + split; [intros Hin; by apply Hnone in Hin | done].
    + rewrite bool_decide_eq_false_2 by done.
      change (Exists manifestUrl :: [] ++ rest)
        with ([Exists manifestUrl] ++ rest).
      rewrite !generate_calls_app, Hq. reflexivity.
    + intros _ _. apply Hnone.
  - apply Hcond in Hyes. split; [|split].
    + split; [done|]. intros _. simpl.
      rewrite !elem_of_cons. auto.
    + rewrite bool_decide_eq_true_2 by done.
      change (Exists manifestUrl
                :: (Generate outDir dir newManifest :: evs) ++ rest)
        with ([Exists manifestUrl; Generate outDir dir newManifest]
                ++ evs ++ rest).
      rewrite !generate_calls_app, Hq, Hqe. reflexivity.
    + intros Hex Heq. destruct Hyes as [Hyes|Hyes]; congruence.
Qed.

Lemma dev_generates_exactly_when_witness :
  (collectDir sample_fs (join ["/app"; "./routes"])
   = Return ["api/joke.ts"; "index.tsx"]
   ∧ collectDir sample_fs (join ["/app"; "./islands"]) = Return [])
  ∧ generate_calls
      (trace (run_dev (sample_world true update_check_fails) "/app"
                      "/app/.fresh" "file:///app/main.ts" recorded_env).2)
    = (if bool_decide
            (exists_ (sample_world true update_check_fails)
               (toFileUrl_href (join ["/app/.fresh"; "fresh.gen.ts"])) = false
             ∨ mkManifest ["api/joke.ts"; "index.tsx"] []
               ≠ mkManifest ["api/joke.ts"; "index.tsx"] [])
       then 1 else 0).
Proof.
  assert (Hroutes : collectDir sample_fs (join ["/app"; "./routes"])
                    = Return ["api/joke.ts"; "index.tsx"])
    by (vm_compute; reflexivity).
  assert (Hislands : collectDir sample_fs (join ["/app"; "./islands"])
                     = Return []) by (vm_compute; reflexivity).
  split; [by split|].
  refine (proj1 (proj2 (dev_generates_exactly_when
                          (sample_world true update_check_fails) "/app"
                          "/app/.fresh" "file:///app/main.ts" recorded_env
                          ["api/joke.ts"; "index.tsx"] []
                          (mkManifest ["api/joke.ts"; "index.tsx"] [])
                          eq_refl Hroutes Hislands _ eq_refl))).
  vm_compute. reflexivity.
Defined.

(** C10.  Whenever [generate] is entered in a cycle, the environment
    variable was set to the serialized new manifest earlier in that cycle,
    with no [generate] before it.  When the cycle then ends before the files
    directory is emptied, that is, when [generate] rejects, the cycle rejects
    and the variable holds the new manifest: nothing rolls it back.  The
    change detector records the new manifest before it compares: whatever
    the comparison makes of the value read back, an answer or a thrown
    [TypeError], the variable has been set by then. *)
Theorem dev_records_manifest_before_generate (w : World)
  (dir outDir entrypoint : string) (env0 : gmap string string) :
  (∀ directory cwd manifest,
      Generate directory cwd manifest
        ∈ trace (run_dev w dir outDir entrypoint env0).2 →
      (∃ pre post,
          trace (run_dev w dir outDir entrypoint env0).2
          = pre ++ EnvSet FRSH_DEV_PREVIOUS_MANIFEST (JSON.stringify manifest)
                :: post
          ∧ quiet pre
          ∧ Generate directory cwd manifest ∈ post)
      ∧ ((∀ path,
             EmptyDir path ∉ trace (run_dev w dir outDir entrypoint env0).2)
         → (∃ err, (run_dev w dir outDir entrypoint env0).1 = Throw err)
           ∧ env (run_dev w dir outDir entrypoint env0).2
               !! FRSH_DEV_PREVIOUS_MANIFEST
             = Some (JSON.stringify manifest)))
  ∧ (∀ st newManifest currentManifest,
        load_currentManifest w (env st !! FRSH_DEV_PREVIOUS_MANIFEST)
        = Return currentManifest
        → (detect_change w newManifest st).1
          = manifestChanged_untyped newManifest currentManifest
          ∧ env (detect_change w newManifest st).2
              !! FRSH_DEV_PREVIOUS_MANIFEST
            = Some (JSON.stringify newManifest)
          ∧ trace (detect_change w newManifest st).2
            = trace st ++ [EnvSet FRSH_DEV_PREVIOUS_MANIFEST
                                  (JSON.stringify newManifest)]).
Proof.
  split.
  2: { intros st newManifest cur Hload.
       rewrite (detect_change_run _ _ _ cur Hload).
       cbn [fst snd env trace]. by rewrite lookup_insert_eq. }
  intros directory cwd manifest Hin.
  destruct (version_gte_min w) eqn:Hversion.
  2: { exfalso. revert Hin. unfold run_dev. rewrite dev_unfold.
       unfold ensureMinDenoVersion. rewrite Hversion. cbn.
       apply not_elem_of_nil. }
  revert Hin. rewrite dev_run_unfold by done.
  destruct (scans w dir) as [[r i]|err];
    [|cbn; rewrite list_elem_of_singleton; discriminate].
  cbv zeta.
  destruct (load_currentManifest w (env0 !! FRSH_DEV_PREVIOUS_MANIFEST))
    as [cur|err];
    [|cbn; rewrite list_elem_of_singleton; discriminate].
  destruct (manifestChanged_untyped (mkManifest r i) cur) as [changed|err].
  2: { cbn. rewrite !elem_of_cons, elem_of_nil. intros Hin.
       exfalso. intuition discriminate. }
  destruct (dev_after_check_trace w dir outDir entrypoint (mkManifest r i)
              changed (recorded env0 (mkManifest r i)))
    as (Henv & gen & rest & Htr & Hq & Hgen).
  cbv zeta in Henv, Htr, Hgen. rewrite Htr, Henv. cbn [recorded trace env].
  intros Hin.
  assert (Hm : directory = outDir ∧ cwd = dir ∧ manifest = mkManifest r i
               ∧ ∃ evs, gen = Generate outDir dir (mkManifest r i) :: evs).
  { destruct Hgen as [[-> _]|(evs & -> & Hqe & _)];
      simpl in Hin; rewrite !elem_of_cons in Hin.
    - destruct Hin as [?|[?|[?|Hin]]]; try discriminate.
      by apply quiet_not_elem in Hin.
    - destruct Hin as [?|[?|[?|[Heq|Hin]]]]; try discriminate.
      + injection Heq as -> -> ->. eauto.
      + apply elem_of_app in Hin as [Hin|Hin];
          by apply quiet_not_elem in Hin. }
  destruct Hm as (-> & -> & -> & evs & ->).
  split.
  - exists [UpdateCheck],
           (Exists (toFileUrl_href (join [outDir; "fresh.gen.ts"]))
              :: (Generate outDir dir (mkManifest r i) :: evs) ++ rest).
    split; [done|]. split; [reflexivity|].
    simpl. rewrite !elem_of_cons. auto.
  - intros Hnone. rewrite lookup_insert_eq. split; [|done].
    destruct Hgen as [[? _]|(evs' & _ & _ & _ & _ & _ & Hrest)];
      [discriminate|].
    destruct Hrest as [[_ Herr]|[rest' ->]]; [exact Herr|].
    exfalso. apply (Hnone (join [outDir; "files"])).
    simpl. rewrite !elem_of_cons, elem_of_app, elem_of_cons. auto 10.
Qed.

Lemma dev_records_manifest_before_generate_witness :
  ((run_dev (sample_world false fmt_fails) "/app" "/app/.fresh"
            "file:///app/main.ts" ∅).1
   = Throw (DenoError "BrokenPipe" "formatter exited")
   ∧ env (run_dev (sample_world false fmt_fails) "/app" "/app/.fresh"
                  "file:///app/main.ts" ∅).2 !! FRSH_DEV_PREVIOUS_MANIFEST
     = Some (JSON.stringify (mkManifest ["api/joke.ts"; "index.tsx"] [])))
  ∧ ((detect_change (sample_world false fmt_fails)
        (mkManifest ["api/joke.ts"; "index.tsx"] [])
        {| env := empty_object_env; trace := [] |}).1
     = Throw (cannot_read "undefined" "length")
     ∧ env (detect_change (sample_world false fmt_fails)
              (mkManifest ["api/joke.ts"; "index.tsx"] [])
              {| env := empty_object_env; trace := [] |}).2
         !! FRSH_DEV_PREVIOUS_MANIFEST
       = Some (JSON.stringify (mkManifest ["api/joke.ts"; "index.tsx"] []))).
Proof.
  assert (Hin : Generate "/app/.fresh" "/app"
                  (mkManifest ["api/joke.ts"; "index.tsx"] [])
                ∈ trace (run_dev (sample_world false fmt_fails) "/app"
                           "/app/.fresh" "file:///app/main.ts" ∅).2).
  { apply (bool_decide_unpack _). vm_compute. exact I. }
  pose proof (dev_records_manifest_before_generate
                (sample_world false fmt_fails) "/app" "/app/.fresh"
                "file:///app/main.ts" ∅)
    as (Hgenerate & Hdetect).
  split.
  - split; [vm_compute; reflexivity|].
    apply (Hgenerate _ _ _ Hin).
    intros path. apply (bool_decide_unpack _). vm_compute. exact I.
  - destruct (Hdetect {| env := empty_object_env; trace := [] |}
                (mkManifest ["api/joke.ts"; "index.tsx"] [])
                (JObject ∅)) as (Hresult & Henv & _);
      [vm_compute; reflexivity|].
    split; [|exact Henv]. rewrite Hresult. vm_compute. reflexivity.
Defined.

(** ** The entrypoint collector *)

Global Instance island_key_inj : Inj (=) (=) island_key.
Proof. intros a b H. unfold island_key in H. by simplify_eq. Qed.

Global Instance plugin_key_inj pluginName : Inj (=) (=) (plugin_key pluginName).
Proof.
  intros a b H. unfold plugin_key in H.
  apply (inj (String.app "plugin-")) in H.
  apply (inj (String.app pluginName)) in H.
  by apply (inj (String.app "-")) in H.
Qed.

Lemma island_key_not_plugin_key id pluginName name :
  island_key id ≠ plugin_key pluginName name.
Proof. unfold island_key, plugin_key. rewrite !append_cons. discriminate. Qed.

Lemma plugin_writes_key plugin key :
  plugin_writes plugin key → ∃ name, key = plugin_key (Plugin.name plugin) name.
Proof. intros (entries & name & _ & _ & <-). by exists name. Qed.

(** *** Islands *)

Lemma add_islands_miss islands (entryPoints : gmap string string) key :
  (∀ island, island ∈ islands → island_key (Island.id island) ≠ key) →
  foldl add_island entryPoints islands !! key = entryPoints !! key.
Proof.
  revert entryPoints. induction islands as [|island islands IH];
    intros entryPoints Hmiss; simpl; [done|].
  rewrite IH by (intros ??; apply Hmiss; by right).
  unfold add_island. apply lookup_insert_ne. apply Hmiss. by left.
Qed.

Lemma add_islands_mono islands (entryPoints : gmap string string) key :
  is_Some (entryPoints !! key) →
  is_Some (foldl add_island entryPoints islands !! key).
Proof.
  revert entryPoints. induction islands as [|island islands IH];
    intros entryPoints Hsome; simpl; [done|].
  apply IH. unfold add_island. rewrite lookup_insert.
  by case_decide.
Qed.

Lemma add_islands_last l1 island l2 (entryPoints : gmap string string) :
  (∀ later, later ∈ l2 → Island.id later ≠ Island.id island) →
  foldl add_island entryPoints (l1 ++ island :: l2)
    !! island_key (Island.id island)
  = Some (Island.url island).
Proof.
  intros Hlast. rewrite foldl_app. simpl.
  rewrite add_islands_miss.
  - unfold add_island at 1. apply lookup_insert_eq.
  - intros later Hin Heq. apply (inj island_key) in Heq. by apply (Hlast later).
Qed.

Lemma add_islands_some islands island (entryPoints : gmap string string) :
  island ∈ islands →
  is_Some (foldl add_island entryPoints islands
             !! island_key (Island.id island)).
Proof.
  intros (l1 & l2 & ->)%list_elem_of_split. rewrite foldl_app. simpl.
  apply add_islands_mono. unfold add_island at 1.
  rewrite lookup_insert_eq. by eexists.
Qed.

(** *** Plugins *)

Section plugin_entries.
Variable pluginName : string.

Let add_entry (acc : gmap string string) (entry : string * string) :=
  <[plugin_key pluginName entry.1 := entry.2]> acc.

Lemma add_entries_miss entries (entryPoints : gmap string string) key :
  (∀ entry, entry ∈ entries → plugin_key pluginName entry.1 ≠ key) →
  foldl add_entry entryPoints entries !! key = entryPoints !! key.
Proof.
  revert entryPoints. induction entries as [|entry entries IH];
    intros entryPoints Hmiss; simpl; [done|].
  rewrite IH by (intros ??; apply Hmiss; by right).
  unfold add_entry. apply lookup_insert_ne. apply Hmiss. by left.
Qed.

Lemma add_entries_mono entries (entryPoints : gmap string string) key :
  is_Some (entryPoints !! key) →
  is_Some (foldl add_entry entryPoints entries !! key).
Proof.
  revert entryPoints. induction entries as [|entry entries IH];
    intros entryPoints Hsome; simpl; [done|].
  apply IH. unfold add_entry. rewrite lookup_insert. by case_decide.
Qed.

Lemma add_entries_hit entries (entryPoints : gmap string string) name url :
  NoDup entries.*1 → (name, url) ∈ entries →
  foldl add_entry entryPoints entries !! plugin_key pluginName name
  = Some url.
Proof.
  revert entryPoints. induction entries as [|entry entries IH];
    intros entryPoints Hnodup Hin; [by apply elem_of_nil in Hin|].
  simpl in Hnodup. apply NoDup_cons in Hnodup as [Hfresh Hnodup].
  apply elem_of_cons in Hin as [<-|Hin]; simpl.
  - rewrite add_entries_miss.
    + unfold add_entry. simpl. apply lookup_insert_eq.
    + intros entry Hentry Heq. apply (inj (plugin_key pluginName)) in Heq.
      apply Hfresh. simpl. rewrite <- Heq.
      apply list_elem_of_fmap. by exists entry.
  - by apply IH.
Qed.
End plugin_entries.

Lemma add_plugin_miss plugin (entryPoints : gmap string string) key :
  ¬ plugin_writes plugin key →
  add_plugin entryPoints plugin !! key = entryPoints !! key.
Proof.
  intros Hmiss. unfold add_plugin. apply add_entries_miss.
  intros [name url] Hin Heq. apply Hmiss.
  destruct (Plugin.entrypoints plugin) as [entries|] eqn:Hentries; simpl in Hin.
  - apply elem_of_map_to_list in Hin. exists entries, name. eauto.
  - unfold Object_entries in Hin. rewrite map_to_list_empty in Hin.
    by apply elem_of_nil in Hin.
Qed.

Lemma add_plugin_mono plugin (entryPoints : gmap string string) key :
  is_Some (entryPoints !! key) → is_Some (add_plugin entryPoints plugin !! key).
Proof. unfold add_plugin. apply add_entries_mono. Qed.

Lemma add_plugin_hit plugin (entryPoints : gmap string string) entries name url :
  Plugin.entrypoints plugin = Some entries → entries !! name = Some url →
  add_plugin entryPoints plugin !! plugin_key (Plugin.name plugin) name
  = Some url.
Proof.
  intros Hentries Hname. unfold add_plugin. rewrite Hentries. simpl.
  apply add_entries_hit.
  - apply NoDup_fst_map_to_list.
  - by apply elem_of_map_to_list.
Qed.

Lemma add_plugins_miss plugins (entryPoints : gmap string string) key :
  (∀ plugin, plugin ∈ plugins → ¬ plugin_writes plugin key) →
  foldl add_plugin entryPoints plugins !! key = entryPoints !! key.
Proof.
  revert entryPoints. induction plugins as [|plugin plugins IH];
    intros entryPoints Hmiss; simpl; [done|].
  rewrite IH by (intros ??; apply Hmiss; by right).
  apply add_plugin_miss. apply Hmiss. by left.
Qed.

Lemma add_plugins_mono plugins (entryPoints : gmap string string) key :
  is_Some (entryPoints !! key) →
  is_Some (foldl add_plugin entryPoints plugins !! key).
Proof.
  revert entryPoints. induction plugins as [|plugin plugins IH];
    intros entryPoints Hsome; simpl; [done|].
  by apply IH, add_plugin_mono.
Qed.

Lemma add_plugins_last l1 plugin l2 (entryPoints : gmap string string)
  entries name url :
  Plugin.entrypoints plugin = Some entries → entries !! name = Some url →
  (∀ later, later ∈ l2
            → ¬ plugin_writes later (plugin_key (Plugin.name plugin) name)) →
  foldl add_plugin entryPoints (l1 ++ plugin :: l2)
    !! plugin_key (Plugin.name plugin) name
  = Some url.
Proof.
  intros Hentries Hname Hlast. rewrite foldl_app. simpl.
  rewrite add_plugins_miss by done. by eapply add_plugin_hit.
Qed.

Lemma not_plugin_writes_builtin plugin key :
  (∀ pluginName name, key ≠ plugin_key pluginName name) →
  ¬ plugin_writes plugin key.
Proof. intros Hkey (name & ->)%plugin_writes_key. by eapply Hkey. Qed.

Lemma builtin_not_island_key key id :
  key ∈ ["main"; "deserializer"; "signals"] → island_key id ≠ key.
Proof.
  unfold island_key. rewrite append_cons, !elem_of_cons, elem_of_nil.
  intros [->|[->|[->|[]]]]; discriminate.
Qed.

Lemma builtin_not_plugin_key key pluginName name :
  key ∈ ["main"; "deserializer"; "signals"] → key ≠ plugin_key pluginName name.
Proof.
  unfold plugin_key. rewrite append_cons, !elem_of_cons, elem_of_nil.
  intros [->|[->|[->|[]]]]; discriminate.
Qed.

(** The built-in entries survive the two loops. *)
Lemma collectEntrypoints_builtin meta dev islands plugins key :
  key ∈ ["main"; "deserializer"] →
  collectEntrypoints meta dev islands plugins !! key
  = (<["deserializer" :=
         resolve_relative meta "../runtime/entrypoints/deserializer.ts"]>
       (<["main" := if dev
                    then resolve_relative meta "../runtime/entrypoints/main_dev.ts"
                    else resolve_relative meta "../runtime/entrypoints/main.ts"]>
          (∅ : gmap string string))) !! key.
Proof.
  intros Hkey. unfold collectEntrypoints.
  assert (Hbuiltin : key ∈ ["main"; "deserializer"; "signals"]).
  { revert Hkey. rewrite !elem_of_cons. tauto. }
  rewrite add_plugins_miss.
  2: { intros plugin _. apply not_plugin_writes_builtin.
       intros ??. by apply builtin_not_plugin_key. }
  rewrite add_islands_miss.
  2: { intros island _. by apply builtin_not_island_key. }
  destruct (in_import_map meta "@preact/signals"); [|done].
  apply lookup_insert_ne.
  revert Hkey. rewrite !elem_of_cons, elem_of_nil.
  intros [->|[->|[]]]; discriminate.
Qed.

(** C8, as the code has it.  The returned map always has the keys [main] and
    [deserializer]; it has a key [island-<id>] for every island, mapped to
    the URL of the last island of the list with that identifier; it has a
    key [plugin-<pluginName>-<entryName>] for every entry a plugin declares;
    and when two plugins of the same name declare the same entry name, the
    key holds the URL of the later one (provided no plugin after it assigns
    that key again). *)
Theorem collectEntrypoints_keys (meta : ImportMeta) (dev : bool)
  (islands : list Island.t) (plugins : list Plugin.t) :
  (collectEntrypoints meta dev islands plugins !! "main"
   = Some (if dev
           then resolve_relative meta "../runtime/entrypoints/main_dev.ts"
           else resolve_relative meta "../runtime/entrypoints/main.ts")
   ∧ collectEntrypoints meta dev islands plugins !! "deserializer"
     = Some (resolve_relative meta "../runtime/entrypoints/deserializer.ts"))
  ∧ (∀ island, island ∈ islands →
       is_Some (collectEntrypoints meta dev islands plugins
                  !! ("island-" +:+ Island.id island)))
  ∧ (∀ l1 island l2,
       islands = l1 ++ island :: l2 →
       (∀ later, later ∈ l2 → Island.id later ≠ Island.id island) →
       collectEntrypoints meta dev islands plugins
         !! ("island-" +:+ Island.id island)
       = Some (Island.url island))
  ∧ (∀ plugin entries name url,
       plugin ∈ plugins →
       Plugin.entrypoints plugin = Some entries →
       entries !! name = Some url →
       is_Some (collectEntrypoints meta dev islands plugins
                  !! ("plugin-" +:+ Plugin.name plugin +:+ "-" +:+ name)))
  ∧ (∀ l1 earlier l2 later l3 entries1 entries2 name url1 url2,
       plugins = l1 ++ earlier :: l2 ++ later :: l3 →
       Plugin.name earlier = Plugin.name later →
       Plugin.entrypoints earlier = Some entries1 →
       entries1 !! name = Some url1 →
       Plugin.entrypoints later = Some entries2 →
       entries2 !! name = Some url2 →
       (∀ plugin, plugin ∈ l3 →
          ¬ plugin_writes plugin
              ("plugin-" +:+ Plugin.name later +:+ "-" +:+ name)) →
       collectEntrypoints meta dev islands plugins
         !! ("plugin-" +:+ Plugin.name later +:+ "-" +:+ name)
       = Some url2).
Proof.
  split; [split|split; [|split; [|split]]].
  - rewrite collectEntrypoints_builtin by (rewrite !elem_of_cons; auto).
    rewrite lookup_insert_ne by discriminate. apply lookup_insert_eq.
  - rewrite collectEntrypoints_builtin by (rewrite !elem_of_cons; auto).
    apply lookup_insert_eq.
  - intros island Hin. unfold collectEntrypoints.
    apply add_plugins_mono. by apply add_islands_some.
  - intros l1 island l2 -> Hlast. unfold collectEntrypoints.
    change ("island-" +:+ Island.id island)
      with (island_key (Island.id island)).
    rewrite add_plugins_miss.
    + by apply add_islands_last.
    + intros plugin _ (name & Heq)%plugin_writes_key.
      by apply (island_key_not_plugin_key _ _ _ Heq).
  - intros plugin entries name url Hin Hentries Hname.
    unfold collectEntrypoints.
    apply list_elem_of_split in Hin as (l1 & l2 & ->).
    change ("plugin-" +:+ Plugin.name plugin +:+ "-" +:+ name)
      with (plugin_key (Plugin.name plugin) name).
    rewrite foldl_app. simpl. apply add_plugins_mono.
    erewrite add_plugin_hit by done. by eexists.
  - intros l1 earlier l2 later l3 entries1 entries2 name url1 url2
           -> _ _ _ Hentries Hname Hlast.
    unfold collectEntrypoints.
    change ("plugin-" +:+ Plugin.name later +:+ "-" +:+ name)
      with (plugin_key (Plugin.name later) name) in *.
    change (l1 ++ earlier :: l2 ++ later :: l3)
      with (l1 ++ (earlier :: l2) ++ later :: l3).
    rewrite (app_assoc l1 (earlier :: l2) (later :: l3)).
    by eapply add_plugins_last.
Qed.

Lemma collectEntrypoints_keys_witness :
  collectEntrypoints sample_meta true [counter_a; counter_b]
                     [tailwind_v1; tailwind_v2]
    !! "island-counter_default"
  = Some "file:///app/islands/counter.tsx"
  ∧ collectEntrypoints sample_meta true [counter_a; counter_b]
                       [tailwind_v1; tailwind_v2]
      !! "plugin-tailwind-main"
    = Some "file:///plugins/v2/main.ts".
Proof.
  pose proof (collectEntrypoints_keys sample_meta true [counter_a; counter_b]
                [tailwind_v1; tailwind_v2]) as (_ & _ & Hisland & _ & Hplugin).
  split.
  - refine (Hisland [counter_a] counter_b [] eq_refl _).
    intros later Hin. by apply elem_of_nil in Hin.
  - refine (Hplugin [] tailwind_v1 [] tailwind_v2 []
              {[ "main" := "file:///plugins/v1/main.ts" ]}
              {[ "main" := "file:///plugins/v2/main.ts" ]}
              "main" "file:///plugins/v1/main.ts" "file:///plugins/v2/main.ts"
              eq_refl eq_refl eq_refl _ eq_refl _ _).
    + vm_compute. reflexivity.
    + vm_compute. reflexivity.
    + intros plugin Hin. by apply elem_of_nil in Hin.
Defined.

(** C8 as stated does not hold for every islands list: of two islands with
    the same identifier, the first one's key is mapped to the URL of the
    second. *)
Lemma collectEntrypoints_island_counterexample :
  ¬ (∀ island,
       island ∈ [counter_a; counter_b] →
       collectEntrypoints sample_meta true [counter_a; counter_b] []
         !! ("island-" +:+ Island.id island)
       = Some (Island.url island)).
Proof.
  intros Hall. specialize (Hall counter_a ltac:(by left)).
  vm_compute in Hall. discriminate.
Qed.

(** ** Splitting and joining *)

Lemma split_not_nil c s : split c s ≠ [].
Proof.
  destruct s as [|x s]; simpl; [done|].
  destruct (Ascii.eqb x c); [done|]. by destruct (split c s).
Qed.

Lemma split_app_sep c a b :
  split c (a +:+ String c b) = split c a ++ split c b.
Proof.
  induction a as [|x a IH].
  - rewrite append_nil. simpl. by rewrite Ascii.eqb_refl.
  - rewrite append_cons. simpl. rewrite IH.
    destruct (Ascii.eqb x c); [done|].
    pose proof (split_not_nil c a). by destruct (split c a).
Qed.

Lemma split_free c s : c ∉ list_ascii_of_string s → split c s = [s].
Proof.
  induction s as [|x s IH]; simpl; [done|].
  rewrite not_elem_of_cons. intros [Hne Hfree].
  rewrite IH by done.
  destruct (Ascii.eqb x c) eqn:Hx; [|done].
  apply Ascii.eqb_eq in Hx. congruence.
Qed.

Lemma Array_join_cons sep x y rest :
  Array_join sep (x :: y :: rest) = x +:+ sep +:+ Array_join sep (y :: rest).
Proof. reflexivity. Qed.

Lemma Array_join_split c s : Array_join (str c) (split c s) = s.
Proof.
  induction s as [|x s IH]; [done|]. simpl.
  pose proof (split_not_nil c s) as Hnil.
  destruct (Ascii.eqb x c) eqn:Hx.
  - apply Ascii.eqb_eq in Hx as ->.
    destruct (split c s) as [|h t]; [done|].
    rewrite Array_join_cons, IH. reflexivity.
  - destruct (split c s) as [|h [|h' t]]; [done|..].
    + simpl in *. by rewrite IH.
    + rewrite Array_join_cons in *. rewrite append_cons. by rewrite IH.
Qed.

Lemma split_Array_join c names :
  names ≠ [] →
  Forall (λ name, c ∉ list_ascii_of_string name) names →
  split c (Array_join (str c) names) = names.
Proof.
  intros Hnil Hfree. induction Hfree as [|x rest Hx Hrest IH]; [done|].
  destruct rest as [|y rest]; [by apply split_free|].
  rewrite Array_join_cons.
  change (x +:+ str c +:+ Array_join (str c) (y :: rest))
    with (x +:+ String c (Array_join (str c) (y :: rest))).
  rewrite split_app_sep, IH by done. by rewrite split_free.
Qed.

(** [strip_ext] removes the final extension: whatever follows the last dot. *)
Lemma strip_ext_final base ext :
  Chars.dot ∉ list_ascii_of_string ext →
  strip_ext (base +:+ "." +:+ ext) = base.
Proof.
  intros Hext. unfold strip_ext, slice_0_m1.
  change (base +:+ "." +:+ ext) with (base +:+ String Chars.dot ext).
  rewrite split_app_sep, (split_free _ ext) by done.
  rewrite removelast_last. apply (Array_join_split Chars.dot).
Qed.

(** ** Suffixes and the extension filter *)

Lemma endsWith_cons c s p :
  endsWith (String c s) p = String.eqb (String c s) p || endsWith s p.
Proof. simpl. by destruct (String.eqb (String c s) p). Qed.

Lemma endsWith_iff s p : endsWith s p = true ↔ ∃ base, s = base +:+ p.
Proof.
  induction s as [|c s IH].
  - simpl. destruct p as [|x p]; simpl.
    + split; [by exists EmptyString|done].
    + split; [done|]. intros ([|??] & Heq); discriminate.
  - rewrite endsWith_cons, orb_true_iff, IH, String.eqb_eq. split.
    + intros [<-|(base & ->)]; [by exists EmptyString|].
      by exists (String c base).
    + intros ([|x base] & Heq).
      * left. by rewrite append_nil in Heq.
      * right. rewrite append_cons in Heq. injection Heq as _ ->. by exists base.
Qed.

Lemma endsWith_child root rel p :
  Chars.slash ∉ list_ascii_of_string p →
  endsWith (child_path root rel) p = endsWith rel p.
Proof.
  intros Hp. unfold child_path.
  change (root +:+ "/" +:+ rel) with (root +:+ String Chars.slash rel).
  assert (Hneq : ∀ a, String.eqb (a +:+ String Chars.slash rel) p = false).
  { intros a. apply String.eqb_neq. intros <-. apply Hp.
    rewrite list_ascii_append. apply elem_of_app. right. by left. }
  induction root as [|c root IH].
  - rewrite append_nil, endsWith_cons.
    specialize (Hneq EmptyString). rewrite append_nil in Hneq.
    by rewrite Hneq.
  - rewrite append_cons, endsWith_cons, IH.
    by rewrite <- append_cons, Hneq.
Qed.

Lemma include_child root rel :
  include (child_path root rel) exts = include rel exts.
Proof.
  unfold include, exts. simpl.
  rewrite !endsWith_child; [done|..];
    simpl; rewrite !not_elem_of_cons, elem_of_nil; intuition discriminate.
Qed.

(** A path passes the filter exactly when it is a base followed by a dot and
    one of the four extensions. *)
Lemma include_iff rel :
  include rel exts = true
  ↔ ∃ base ext, ext ∈ exts ∧ rel = base +:+ "." +:+ ext.
Proof.
  unfold include. rewrite existsb_exists. split.
  - intros (ext & Hin & (base & ->)%endsWith_iff).
    exists base, ext. split; [|done]. by apply list_elem_of_In.
  - intros (base & ext & Hin & ->). exists ext.
    split; [by apply list_elem_of_In|]. apply endsWith_iff. by exists base.
Qed.

Lemma exts_dot_free ext : ext ∈ exts → Chars.dot ∉ list_ascii_of_string ext.
Proof.
  unfold exts. rewrite !elem_of_cons, elem_of_nil.
  intros [->|[->|[->|[->|[]]]]]; simpl;
    rewrite !not_elem_of_cons, elem_of_nil; intuition discriminate.
Qed.

(** For a file that passes the filter, the key computed by [collectDir] is
    its path without the extension. *)
Lemma strip_ext_matching base ext :
  ext ∈ exts → strip_ext (base +:+ "." +:+ ext) = base.
Proof. intros Hext. by apply strip_ext_final, exts_dot_free. Qed.

(** ** Directory trees *)

Lemma FsEntry_forall_ind (P : FsEntry → Prop) :
  (∀ name, P (FsFile name)) →
  (∀ name children, Forall P children → P (FsDir name children)) →
  ∀ entry, P entry.
Proof.
  intros Hfile Hdir. fix IH 1. intros [name|name children]; [apply Hfile|].
  apply Hdir. revert children. fix IHchildren 1.
  intros [|child children]; constructor; [apply IH | apply IHchildren].
Qed.

Lemma fmap_id_on {A} (f : A → A) (l : list A) :
  (∀ x, x ∈ l → f x = x) → f <$> l = l.
Proof.
  induction l as [|x l IH]; intros Hf; [done|]. rewrite fmap_cons.
  rewrite Hf by (by left). rewrite IH; [done|]. intros y Hy. apply Hf. by right.
Qed.

Lemma filter_include_prefix name (rels : list string) :
  filter (λ rel, include rel exts = true) ((λ rel, name +:+ "/" +:+ rel) <$> rels)
  = (λ rel, name +:+ "/" +:+ rel)
      <$> filter (λ rel, include rel exts = true) rels.
Proof.
  induction rels as [|rel rels IH]; [done|]. rewrite fmap_cons.
  pose proof (include_child name rel) as Hinc. unfold child_path in Hinc.
  rewrite !filter_cons, IH, Hinc.
  by destruct (decide (include rel exts = true)).
Qed.

Lemma child_path_assoc root name rel :
  child_path root (name +:+ "/" +:+ rel) = child_path (child_path root name) rel.
Proof. unfold child_path. by rewrite !append_assoc. Qed.

Lemma walk_entry_files entry :
  ∀ root,
    walk_entry root entry
    = child_path root
        <$> filter (λ rel, include rel exts = true) (entry_files entry).
Proof.
  induction entry as [name|name children IH] using FsEntry_forall_ind;
    intros root; cbn [walk_entry entry_files].
  - rewrite filter_cons, filter_nil, include_child.
    destruct (decide (include name exts = true)) as [Hinc|Hinc].
    + by rewrite Hinc.
    + apply not_true_is_false in Hinc. by rewrite Hinc.
  - rewrite filter_include_prefix, <- list_fmap_compose.
    induction IH as [|child children Hchild _ IHchildren]; [done|].
    cbn [flat_map].
    rewrite filter_app, fmap_app, <- IHchildren, Hchild. f_equal.
    apply list_fmap_ext. intros _ rel _. cbn [compose].
    by rewrite child_path_assoc.
Qed.

Lemma walk_entries_files root entries :
  walk_entries root entries = child_path root <$> matching_files entries.
Proof.
  unfold walk_entries, matching_files, tree_files.
  induction entries as [|entry entries IH]; [done|]. cbn [flat_map].
  by rewrite filter_app, fmap_app, <- IH, walk_entry_files.
Qed.

(** *** Relative paths of the files of a well-formed tree *)

Lemma valid_name_spec name :
  valid_name name = true →
  name ≠ EmptyString ∧ Chars.slash ∉ list_ascii_of_string name.
Proof.
  unfold valid_name. rewrite andb_true_iff, negb_true_iff, String.eqb_neq.
  intros [Hne Hall]. split; [done|]. intros Hin.
  rewrite forallb_forall in Hall. apply list_elem_of_In, Hall in Hin.
  by rewrite Ascii.eqb_refl in Hin.
Qed.

Lemma entry_files_names entry :
  valid_entry entry = true → ∀ rel, rel ∈ entry_files entry → names_path rel.
Proof.
  induction entry as [name|name children IH] using FsEntry_forall_ind;
    simpl; intros Hvalid rel Hin.
  - apply list_elem_of_singleton in Hin as ->. exists [name].
    split; [done|]. split; [by constructor|done].
  - apply andb_true_iff in Hvalid as [Hname Hchildren].
    apply list_elem_of_fmap in Hin as (rel' & -> & Hin).
    assert (Hrel' : names_path rel').
    { clear Hname. induction IH as [|child children Hchild _ IHchildren];
        simpl in *; [by apply elem_of_nil in Hin|].
      apply andb_true_iff in Hchildren as [Hc Hcs].
      apply elem_of_app in Hin as [Hin|Hin]; [by apply Hchild | by apply IHchildren]. }
    destruct Hrel' as (names & Hnil & Hall & ->).
    exists (name :: names). split; [done|]. split; [by constructor|].
    by destruct names.
Qed.

Lemma tree_files_names entries rel :
  forallb valid_entry entries = true → rel ∈ tree_files entries →
  names_path rel.
Proof.
  unfold tree_files. induction entries as [|entry entries IH]; simpl;
    intros Hvalid Hin; [by apply elem_of_nil in Hin|].
  apply andb_true_iff in Hvalid as [Hentry Hentries].
  apply elem_of_app in Hin as [Hin|Hin];
    [by eapply entry_files_names | by apply IH].
Qed.

Lemma segments_child root rel :
  posix.segments (child_path root rel)
  = posix.segments root ++ posix.segments rel.
Proof.
  unfold posix.segments, child_path.
  change (root +:+ "/" +:+ rel) with (root +:+ String Chars.slash rel).
  by rewrite split_app_sep, filter_app.
Qed.

Lemma segments_names names :
  names ≠ [] → Forall (λ name, valid_name name = true) names →
  posix.segments (Array_join "/" names) = names.
Proof.
  intros Hnil Hall. unfold posix.segments.
  rewrite (split_Array_join Chars.slash).
  - induction Hall as [|name names [Hne _]%valid_name_spec _ IH]; [done|].
    rewrite filter_cons_True by done. destruct names; [done|].
    by rewrite IH.
  - done.
  - eapply Forall_impl; [exact Hall|]. intros name Hname. cbv beta in Hname.
    by apply valid_name_spec in Hname as [_ ?].
Qed.

Lemma strip_common_app xs ys : posix.strip_common xs (xs ++ ys) = ([], ys).
Proof.
  induction xs as [|x xs IH]; simpl; [by destruct ys|].
  by rewrite String.eqb_refl.
Qed.

(** [relative(dir, join(dir, rel))] is [rel]. *)
Lemma relative_child dir rel :
  names_path rel → relative dir (child_path dir rel) = rel.
Proof.
  intros (names & Hnil & Hall & ->). unfold relative, posix.relative.
  rewrite segments_child, segments_names, strip_common_app by done.
  reflexivity.
Qed.

Lemma relative_walk fs dir entries :
  fs dir = Return (Directory entries) →
  forallb valid_entry entries = true →
  relative dir <$> walk fs dir = matching_files entries.
Proof.
  intros Hdir Hvalid. unfold walk. rewrite Hdir, walk_entries_files.
  rewrite <- list_fmap_compose. apply fmap_id_on.
  intros rel Hin. simpl. apply relative_child.
  apply (tree_files_names entries); [done|].
  unfold matching_files in Hin. by apply list_elem_of_filter in Hin as [_ ?].
Qed.

(** ** The collecting loop *)

Section collectDir_loop.
Variable dir : string.

Let key (entry_path : string) : string := fileNameWithoutExt dir entry_path.
Let rel (entry_path : string) : string := relative dir entry_path.

Lemma fileNames_snoc (visited : list string) entry_path :
  (list_to_set (key <$> visited) : gset string) ∪ {[key entry_path]}
  = list_to_set (key <$> (visited ++ [entry_path])).
Proof.
  rewrite fmap_app, list_to_set_app_L. simpl. by rewrite (right_id_L ∅ (∪)).
Qed.

(** Without a repeated key the loop returns every relative path, in
    traversal order. *)
Lemma collectDir_loop_ok routesFolder visited :
  NoDup (key <$> (visited ++ routesFolder)) →
  collectDir_loop dir routesFolder (rel <$> visited)
                  (list_to_set (key <$> visited))
  = Return (rel <$> (visited ++ routesFolder)).
Proof.
  revert visited.
  induction routesFolder as [|entry_path routesFolder IH]; intros visited Hnodup.
  - by rewrite app_nil_r.
  - cbn [collectDir_loop]. fold (key entry_path) (rel entry_path).
    rewrite bool_decide_eq_false_2.
    + rewrite fileNames_snoc.
      replace ((rel <$> visited) ++ [rel entry_path])
        with (rel <$> (visited ++ [entry_path])) by by rewrite fmap_app.
      rewrite IH; rewrite <- app_assoc; done.
    + rewrite elem_of_list_to_set.
      rewrite fmap_app, fmap_cons in Hnodup.
      apply NoDup_app in Hnodup as (_ & Hdisjoint & _).
      intros Hin. apply (Hdisjoint _ Hin). by left.
Qed.

(** With a repeated key the loop throws at the first file whose key was
    seen before, and the message carries that key. *)
Lemma collectDir_loop_conflict routesFolder visited :
  NoDup (key <$> visited) →
  ¬ NoDup (key <$> (visited ++ routesFolder)) →
  ∃ i j k,
    i < j
    ∧ (key <$> (visited ++ routesFolder)) !! i = Some k
    ∧ (key <$> (visited ++ routesFolder)) !! j = Some k
    ∧ collectDir_loop dir routesFolder (rel <$> visited)
                      (list_to_set (key <$> visited))
      = Throw (Error (conflict_message dir k)).
Proof.
  revert visited.
  induction routesFolder as [|entry_path routesFolder IH];
    intros visited Hvisited Hdup.
  - by rewrite app_nil_r in Hdup.
  - cbn [collectDir_loop]. fold (key entry_path) (rel entry_path).
    destruct (decide (key entry_path ∈ key <$> visited)) as [Hseen|Hfresh].
    + rewrite bool_decide_eq_true_2 by by rewrite elem_of_list_to_set.
      apply list_elem_of_lookup in Hseen as [i Hi].
      exists i, (length (key <$> visited)), (key entry_path).
      split; [by eapply lookup_lt_Some|].
      rewrite fmap_app, fmap_cons. split; [|split; [|done]].
      * by apply lookup_app_l_Some.
      * by rewrite list_lookup_middle.
    + rewrite bool_decide_eq_false_2 by by rewrite elem_of_list_to_set.
      rewrite fileNames_snoc.
      replace ((rel <$> visited) ++ [rel entry_path])
        with (rel <$> (visited ++ [entry_path])) by by rewrite fmap_app.
      destruct (IH (visited ++ [entry_path])) as (i & j & k & Hij & Hi & Hj & Hrun).
      * rewrite fmap_app. apply NoDup_app. split; [done|].
        split; [|apply NoDup_singleton].
        intros x Hx Hx'. apply list_elem_of_singleton in Hx' as ->. done.
      * by rewrite <- app_assoc.
      * rewrite <- app_assoc in Hi, Hj. by exists i, j, k.
Qed.
End collectDir_loop.

Lemma keys_walk fs dir entries :
  fs dir = Return (Directory entries) →
  forallb valid_entry entries = true →
  fileNameWithoutExt dir <$> walk fs dir
  = strip_ext <$> matching_files entries.
Proof.
  intros Hdir Hvalid. rewrite <- (relative_walk fs dir entries) by done.
  by rewrite <- list_fmap_compose.
Qed.

Lemma collectDir_directory fs dir entries :
  fs dir = Return (Directory entries) →
  collectDir fs dir
  = match collectDir_loop dir (walk fs dir) [] ∅ with
    | Throw err => Throw err
    | Return paths => Return (Array_sort paths)
    end.
Proof. intros Hdir. unfold collectDir, Deno_stat. by rewrite Hdir. Qed.

(** C3.  For a directory tree (entry names valid) in which no two files
    with one of the four extensions have the same relative path once the
    final extension is stripped, [collectDir] returns a list that is sorted
    in the code-unit order of strings and holds exactly the relative paths of
    those files, each once: nothing for a directory, nothing for a file with
    another extension. *)
Theorem collectDir_sorted_complete (fs : FileSystem) (dir : string)
  (entries : list FsEntry) :
  fs dir = Return (Directory entries) →
  forallb valid_entry entries = true →
  NoDup (strip_ext <$> matching_files entries) →
  ∃ paths,
    collectDir fs dir = Return paths
    ∧ StronglySorted String.le paths
    ∧ paths ≡ₚ matching_files entries
    ∧ NoDup paths
    ∧ (∀ rel, rel ∈ paths
              ↔ rel ∈ tree_files entries
                ∧ ∃ base ext, ext ∈ exts ∧ rel = base +:+ "." +:+ ext).
Proof.
  intros Hdir Hvalid Hkeys.
  exists (Array_sort (matching_files entries)).
  assert (Hperm : Array_sort (matching_files entries) ≡ₚ matching_files entries)
    by apply merge_sort_Permutation.
  split; [|split; [|split; [|split]]].
  - rewrite (collectDir_directory _ _ _ Hdir).
    assert (Hloop : NoDup (fileNameWithoutExt dir <$> walk fs dir) →
                    collectDir_loop dir (walk fs dir) [] ∅
                    = Return (relative dir <$> walk fs dir))
      by apply (collectDir_loop_ok dir (walk fs dir) []).
    rewrite (keys_walk _ _ _ Hdir Hvalid) in Hloop. rewrite (Hloop Hkeys).
    by rewrite (relative_walk _ _ _ Hdir Hvalid).
  - apply StronglySorted_merge_sort; apply _.
  - done.
  - rewrite Hperm. by apply NoDup_fmap_1 in Hkeys.
  - intros rel. rewrite Hperm. unfold matching_files.
    rewrite list_elem_of_filter, include_iff. tauto.
Qed.

(** C4.  For a directory tree (entry names valid) that holds two files with
    one of the four extensions whose relative paths agree once the final
    extension is stripped, [collectDir] returns nothing: it throws an error
    whose message is the conflict text followed by the scanned directory and
    the stripped path shared by two such files. *)
Theorem collectDir_conflict (fs : FileSystem) (dir : string)
  (entries : list FsEntry) :
  fs dir = Return (Directory entries) →
  forallb valid_entry entries = true →
  (∃ i j rel1 rel2,
      i ≠ j
      ∧ matching_files entries !! i = Some rel1
      ∧ matching_files entries !! j = Some rel2
      ∧ strip_ext rel1 = strip_ext rel2) →
  ∃ key,
    collectDir fs dir
    = Throw (Error ("Route conflict detected. Multiple files have the same name: "
                    +:+ dir +:+ key))
    ∧ ∃ i j rel1 rel2,
        i < j
        ∧ matching_files entries !! i = Some rel1
        ∧ matching_files entries !! j = Some rel2
        ∧ strip_ext rel1 = key
        ∧ strip_ext rel2 = key.
Proof.
  intros Hdir Hvalid (i & j & rel1 & rel2 & Hij & Hi & Hj & Hsame).
  assert (Hdup : ¬ NoDup (strip_ext <$> matching_files entries)).
  { intros Hnodup. apply Hij.
    apply (NoDup_lookup _ i j (strip_ext rel1) Hnodup);
      rewrite list_lookup_fmap; [by rewrite Hi | by rewrite Hj, Hsame]. }
  assert (Hloop : ¬ NoDup (fileNameWithoutExt dir <$> walk fs dir) →
                  ∃ i j k,
                    i < j
                    ∧ (fileNameWithoutExt dir <$> walk fs dir) !! i = Some k
                    ∧ (fileNameWithoutExt dir <$> walk fs dir) !! j = Some k
                    ∧ collectDir_loop dir (walk fs dir) [] ∅
                      = Throw (Error (conflict_message dir k)))
    by apply (collectDir_loop_conflict dir (walk fs dir) [] (NoDup_nil_2)).
  rewrite (keys_walk _ _ _ Hdir Hvalid) in Hloop.
  destruct (Hloop Hdup) as (i' & j' & key & Hlt & Hi' & Hj' & Hrun).
  exists key. split.
  - rewrite (collectDir_directory _ _ _ Hdir). by rewrite Hrun.
  - rewrite list_lookup_fmap in Hi', Hj'.
    destruct (matching_files entries !! i') as [r1|] eqn:Hr1; [|done].
    destruct (matching_files entries !! j') as [r2|] eqn:Hr2; [|done].
    simpl in Hi', Hj'. exists i', j', r1, r2. naive_solver.
Qed.

Lemma collectDir_sorted_complete_witness :
  NoDup (strip_ext <$> matching_files sample_routes)
  ∧ ∃ paths,
      collectDir sample_fs "/app/routes" = Return paths
      ∧ StronglySorted String.le paths
      ∧ paths ≡ₚ matching_files sample_routes
      ∧ NoDup paths
      ∧ (∀ rel, rel ∈ paths
                ↔ rel ∈ tree_files sample_routes
                  ∧ ∃ base ext, ext ∈ exts ∧ rel = base +:+ "." +:+ ext).
Proof.
  assert (Hkeys : NoDup (strip_ext <$> matching_files sample_routes)).
  { apply (bool_decide_unpack _). vm_compute. exact I. }
  split; [exact Hkeys|].
  exact (collectDir_sorted_complete sample_fs "/app/routes" sample_routes
           eq_refl eq_refl Hkeys).
Defined.

Example collectDir_sample :
  collectDir sample_fs "/app/routes" = Return ["api/joke.ts"; "index.tsx"].
Proof. vm_compute. reflexivity. Qed.

Lemma collectDir_conflict_witness :
  (matching_files conflict_routes !! 0 = Some "foo.ts"
   ∧ matching_files conflict_routes !! 2 = Some "foo.tsx"
   ∧ strip_ext "foo.ts" = strip_ext "foo.tsx")
  ∧ ∃ key,
      collectDir conflict_fs "/app/routes"
      = Throw (Error ("Route conflict detected. Multiple files have the same name: "
                      +:+ "/app/routes" +:+ key))
      ∧ ∃ i j rel1 rel2,
          i < j
          ∧ matching_files conflict_routes !! i = Some rel1
          ∧ matching_files conflict_routes !! j = Some rel2
          ∧ strip_ext rel1 = key
          ∧ strip_ext rel2 = key.
Proof.
  assert (H0 : matching_files conflict_routes !! 0 = Some "foo.ts")
    by (vm_compute; reflexivity).
  assert (H2 : matching_files conflict_routes !! 2 = Some "foo.tsx")
    by (vm_compute; reflexivity).
  assert (Hsame : strip_ext "foo.ts" = strip_ext "foo.tsx")
    by (vm_compute; reflexivity).
  split; [by repeat split|].
  refine (collectDir_conflict conflict_fs "/app/routes" conflict_routes
            eq_refl eq_refl _).
  exists 0, 2, "foo.ts", "foo.tsx". repeat split; [lia|done..].
Defined.

Example collectDir_conflict_sample :
  collectDir conflict_fs "/app/routes"
  = Throw (Error "Route conflict detected. Multiple files have the same name: /app/routesfoo").
Proof. vm_compute. reflexivity. Qed.


(** * Further properties *)

(** ** [arraysEqual] *)

Lemma arraysEqual_bool_decide (a b : list string) :
  arraysEqual a b = bool_decide (a = b).
Proof.
  destruct (arraysEqual a b) eqn:Heq; symmetry.
  - apply bool_decide_eq_true. by apply arraysEqual_true.
  - apply bool_decide_eq_false. by apply arraysEqual_false.
Qed.

Lemma Get_returns b key :
  b ≠ JUndefined → b ≠ JNull → ∃ value, Get b key = Return value.
Proof.
  intros Hundefined Hnull.
  destruct b; try done; cbn [Get];
    try destruct (String.eqb key "length"); eauto.
Qed.

Lemma arraysEqual_untyped_loop_returns a b i n :
  b ≠ JUndefined → b ≠ JNull →
  ∃ answer, arraysEqual_untyped_loop a b i n = Return answer.
Proof.
  intros Hundefined Hnull. revert i.
  induction n as [|n IH]; intros i; [by eexists|].
  cbn [arraysEqual_untyped_loop].
  destruct (Get_returns b (Number_toString i) Hundefined Hnull) as [b_i ->].
  cbn [mbind JsResult_bind].
  destruct (element_differs (a !! i) b_i); [by eexists | apply IH].
Qed.

(** X1.  [arraysEqual], called with an array of strings and a second
    argument of unknown shape: it throws a [TypeError] when that argument is
    [undefined] or [null], and returns an answer on every other value; when
    the argument is an array of strings, the answer is true exactly when the
    two arrays are the same sequence. *)
Theorem arraysEqual_second_argument (a : list string) (b : JsValue) :
  (b = JUndefined
   → arraysEqual_untyped a b = Throw (cannot_read "undefined" "length"))
  ∧ (b = JNull
     → arraysEqual_untyped a b = Throw (cannot_read "null" "length"))
  ∧ (b ≠ JUndefined → b ≠ JNull
     → ∃ answer, arraysEqual_untyped a b = Return answer)
  ∧ (∀ strings, b = JArray (JString <$> strings)
                → arraysEqual_untyped a b = Return (bool_decide (a = strings))).
Proof.
  split; [by intros ->|]. split; [by intros ->|]. split.
  - intros Hundefined Hnull. unfold arraysEqual_untyped.
    destruct (Get_returns b "length" Hundefined Hnull) as [b_length ->].
    cbn [mbind JsResult_bind].
    destruct (length_differs (length a) b_length); [by eexists|].
    by apply arraysEqual_untyped_loop_returns.
  - intros strings ->.
    by rewrite arraysEqual_untyped_array, arraysEqual_bool_decide.
Qed.

Lemma arraysEqual_second_argument_witness :
  arraysEqual_untyped ["index.tsx"] JUndefined
  = Throw (cannot_read "undefined" "length")
  ∧ (∃ answer, arraysEqual_untyped ["index.tsx"] (JString "x") = Return answer)
  ∧ arraysEqual_untyped ["index.tsx"] (JArray (JString <$> ["index.tsx"]))
    = Return (bool_decide (["index.tsx"] = ["index.tsx"])).
Proof.
  split; [|split].
  - exact (proj1 (arraysEqual_second_argument ["index.tsx"] JUndefined)
             eq_refl).
  - apply (proj1 (proj2 (proj2 (arraysEqual_second_argument
                                  ["index.tsx"] (JString "x")))));
      discriminate.
  - exact (proj2 (proj2 (proj2 (arraysEqual_second_argument ["index.tsx"]
                                  (JArray (JString <$> ["index.tsx"])))))
             ["index.tsx"] eq_refl).
Defined.

(** ** The directory collector, further *)

(** X2.  Two files that pass the extension filter get the same conflict key
    exactly when they differ in nothing but the extension: the key is the
    whole relative path up to the final dot, directories included. *)
Theorem conflict_key_same_base (base1 base2 ext1 ext2 : string) :
  ext1 ∈ exts → ext2 ∈ exts →
  (strip_ext (base1 +:+ "." +:+ ext1) = strip_ext (base2 +:+ "." +:+ ext2)
   ↔ base1 = base2).
Proof.
  intros Hext1 Hext2. by rewrite !strip_ext_matching.
Qed.

Lemma conflict_key_same_base_witness :
  ("ts" ∈ exts ∧ "tsx" ∈ exts)
  ∧ (strip_ext ("api/joke" +:+ "." +:+ "ts")
     = strip_ext ("api/joke" +:+ "." +:+ "tsx")
     ↔ "api/joke" = "api/joke").
Proof.
  assert (H1 : "ts" ∈ exts) by (apply (bool_decide_unpack _); vm_compute; exact I).
  assert (H2 : "tsx" ∈ exts) by (apply (bool_decide_unpack _); vm_compute; exact I).
  split; [by split|].
  exact (conflict_key_same_base "api/joke" "api/joke" "ts" "tsx" H1 H2).
Defined.

Lemma collectDir_returns fs dir entries :
  fs dir = Return (Directory entries) →
  forallb valid_entry entries = true →
  NoDup (strip_ext <$> matching_files entries) →
  collectDir fs dir = Return (Array_sort (matching_files entries)).
Proof.
  intros Hdir Hvalid Hkeys.
  rewrite (collectDir_directory _ _ _ Hdir).
  assert (Hloop : NoDup (fileNameWithoutExt dir <$> walk fs dir) →
                  collectDir_loop dir (walk fs dir) [] ∅
                  = Return (relative dir <$> walk fs dir))
    by apply (collectDir_loop_ok dir (walk fs dir) []).
  rewrite (keys_walk _ _ _ Hdir Hvalid) in Hloop. rewrite (Hloop Hkeys).
  by rewrite (relative_walk _ _ _ Hdir Hvalid).
Qed.

Lemma Array_sort_perm (paths1 paths2 : list string) :
  paths1 ≡ₚ paths2 → Array_sort paths1 = Array_sort paths2.
Proof.
  intros Hperm. unfold Array_sort.
  apply (StronglySorted_unique String.le).
  - apply StronglySorted_merge_sort; apply _.
  - apply StronglySorted_merge_sort; apply _.
  - by rewrite !merge_sort_Permutation.
Qed.

(** X3.  The result of [collectDir] does not depend on the order in which
    directories list their entries, nor on where the scanned directory
    lives: two conflict-free trees that hold the same relative paths of
    matching files give the same list. *)
Theorem collectDir_order_independent (fs1 fs2 : FileSystem)
  (dir1 dir2 : string) (entries1 entries2 : list FsEntry) :
  fs1 dir1 = Return (Directory entries1) →
  fs2 dir2 = Return (Directory entries2) →
  forallb valid_entry entries1 = true →
  forallb valid_entry entries2 = true →
  matching_files entries1 ≡ₚ matching_files entries2 →
  NoDup (strip_ext <$> matching_files entries1) →
  collectDir fs1 dir1 = collectDir fs2 dir2.
Proof.
  intros Hdir1 Hdir2 Hvalid1 Hvalid2 Hperm Hkeys.
  rewrite (collectDir_returns _ _ _ Hdir1 Hvalid1 Hkeys).
  rewrite (collectDir_returns _ _ _ Hdir2 Hvalid2).
  - f_equal. by apply Array_sort_perm.
  - by rewrite <- Hperm.
Qed.

Lemma collectDir_order_independent_witness :
  matching_files sample_routes ≡ₚ matching_files reordered_routes
  ∧ collectDir sample_fs "/app/routes" = collectDir reordered_fs "/srv/site/routes".
Proof.
  assert (Hperm : matching_files sample_routes ≡ₚ matching_files reordered_routes).
  { change (["index.tsx"; "api/joke.ts"] ≡ₚ ["api/joke.ts"; "index.tsx"]).
    apply perm_swap. }
  split; [exact Hperm|].
  refine (collectDir_order_independent sample_fs reordered_fs
            "/app/routes" "/srv/site/routes" sample_routes reordered_routes
            eq_refl eq_refl eq_refl eq_refl Hperm _).
  apply (bool_decide_unpack _). vm_compute. exact I.
Defined.

Section collectDir_loop_first.
Variable dir : string.

Let key (entry_path : string) : string := fileNameWithoutExt dir entry_path.
Let rel (entry_path : string) : string := relative dir entry_path.

(** The loop stops at the first file whose key has been seen. *)
Lemma collectDir_loop_first routesFolder visited :
  NoDup (key <$> visited) →
  ¬ NoDup (key <$> (visited ++ routesFolder)) →
  ∃ j k,
    (key <$> (visited ++ routesFolder)) !! j = Some k
    ∧ k ∈ take j (key <$> (visited ++ routesFolder))
    ∧ NoDup (take j (key <$> (visited ++ routesFolder)))
    ∧ collectDir_loop dir routesFolder (rel <$> visited)
                      (list_to_set (key <$> visited))
      = Throw (Error (conflict_message dir k)).
Proof.
  revert visited.
  induction routesFolder as [|entry_path routesFolder IH];
    intros visited Hvisited Hdup.
  - by rewrite app_nil_r in Hdup.
  - cbn [collectDir_loop]. fold (key entry_path) (rel entry_path).
    destruct (decide (key entry_path ∈ key <$> visited)) as [Hseen|Hfresh].
    + rewrite bool_decide_eq_true_2 by by rewrite elem_of_list_to_set.
      exists (length (key <$> visited)), (key entry_path).
      rewrite fmap_app, fmap_cons.
      rewrite take_app_length, list_lookup_middle by done. done.
    + rewrite bool_decide_eq_false_2 by by rewrite elem_of_list_to_set.
      rewrite (fileNames_snoc dir).
      replace ((rel <$> visited) ++ [rel entry_path])
        with (rel <$> (visited ++ [entry_path])) by by rewrite fmap_app.
      destruct (IH (visited ++ [entry_path])) as (j & k & Hj & Hin & Hnd & Hrun).
      * rewrite fmap_app. apply NoDup_app. split; [done|].
        split; [|apply NoDup_singleton].
        intros x Hx Hx'. apply list_elem_of_singleton in Hx' as ->. done.
      * by rewrite <- app_assoc.
      * rewrite <- app_assoc in Hj, Hin, Hnd. by exists j, k.
Qed.
End collectDir_loop_first.

(** X4.  On a conflict [collectDir] stops at the first matching file, in
    traversal order, whose key repeats the key of an earlier one: the files
    before it have pairwise different keys, and the key in the message is
    the key of that file. *)
Theorem collectDir_first_conflict (fs : FileSystem) (dir : string)
  (entries : list FsEntry) :
  fs dir = Return (Directory entries) →
  forallb valid_entry entries = true →
  ¬ NoDup (strip_ext <$> matching_files entries) →
  ∃ j rel,
    matching_files entries !! j = Some rel
    ∧ strip_ext rel ∈ strip_ext <$> take j (matching_files entries)
    ∧ NoDup (strip_ext <$> take j (matching_files entries))
    ∧ collectDir fs dir = Throw (Error (conflict_message dir (strip_ext rel))).
Proof.
  intros Hdir Hvalid Hdup.
  assert (Hloop : ¬ NoDup (fileNameWithoutExt dir <$> walk fs dir) →
                  ∃ j k,
                    (fileNameWithoutExt dir <$> walk fs dir) !! j = Some k
                    ∧ k ∈ take j (fileNameWithoutExt dir <$> walk fs dir)
                    ∧ NoDup (take j (fileNameWithoutExt dir <$> walk fs dir))
                    ∧ collectDir_loop dir (walk fs dir) [] ∅
                      = Throw (Error (conflict_message dir k)))
    by apply (collectDir_loop_first dir (walk fs dir) [] (NoDup_nil_2)).
  rewrite (keys_walk _ _ _ Hdir Hvalid) in Hloop.
  destruct (Hloop Hdup) as (j & k & Hj & Hin & Hnd & Hrun).
  rewrite list_lookup_fmap in Hj.
  destruct (matching_files entries !! j) as [rel|] eqn:Hrel; [|done].
  simpl in Hj. injection Hj as <-.
  rewrite <- fmap_take in Hin, Hnd.
  exists j, rel. split; [done|]. split; [done|]. split; [done|].
  rewrite (collectDir_directory _ _ _ Hdir). by rewrite Hrun.
Qed.

Lemma collectDir_first_conflict_witness :
  ¬ NoDup (strip_ext <$> matching_files double_conflict_routes)
  ∧ ∃ j rel,
      matching_files double_conflict_routes !! j = Some rel
      ∧ strip_ext rel ∈ strip_ext <$> take j (matching_files double_conflict_routes)
      ∧ NoDup (strip_ext <$> take j (matching_files double_conflict_routes))
      ∧ collectDir double_conflict_fs "/app/routes"
        = Throw (Error (conflict_message "/app/routes" (strip_ext rel))).
Proof.
  assert (Hdup : ¬ NoDup (strip_ext <$> matching_files double_conflict_routes)).
  { apply (bool_decide_eq_false_1 _). vm_compute. reflexivity. }
  split; [exact Hdup|].
  exact (collectDir_first_conflict double_conflict_fs "/app/routes"
           double_conflict_routes eq_refl eq_refl Hdup).
Defined.

Example collectDir_double_conflict :
  collectDir double_conflict_fs "/app/routes"
  = Throw (Error (conflict_message "/app/routes" "b")).
Proof. vm_compute. reflexivity. Qed.

(** ** The manifest generator, further *)

Lemma plain_name_spec name :
  plain_name name = true →
  valid_name name = true ∧ name ≠ "." ∧ name ≠ ".."
  ∧ Chars.backslash ∉ list_ascii_of_string name.
Proof.
  unfold plain_name. rewrite !andb_true_iff, !negb_true_iff, !String.eqb_neq.
  intros [[[Hvalid Hdot] Hdotdot] Hall]. repeat split; try done.
  intros Hin. rewrite forallb_forall in Hall.
  apply list_elem_of_In, Hall in Hin. by rewrite Ascii.eqb_refl in Hin.
Qed.

Lemma plain_names_valid names :
  Forall (λ name, plain_name name = true) names →
  Forall (λ name, valid_name name = true) names.
Proof.
  intros Hall. eapply Forall_impl; [exact Hall|].
  intros name Hname. cbv beta in Hname.
  by apply plain_name_spec in Hname as [? _].
Qed.

Lemma plain_names_slash_free names :
  Forall (λ name, plain_name name = true) names →
  Forall (λ name, Chars.slash ∉ list_ascii_of_string name) names.
Proof.
  intros Hall. eapply Forall_impl; [exact Hall|].
  intros name Hname. cbv beta in Hname.
  apply plain_name_spec in Hname as [Hvalid _].
  by apply valid_name_spec in Hvalid as [_ ?].
Qed.

Lemma normalize_steps_plain allowAboveRoot names stack :
  Forall (λ name, plain_name name = true) names →
  fold_left (posix.normalize_step allowAboveRoot) names stack
  = rev names ++ stack.
Proof.
  intros Hall. revert stack.
  induction Hall as [|name names Hname _ IH]; intros stack; [done|].
  cbn [fold_left]. rewrite IH. cbn [rev]. rewrite <- app_assoc.
  f_equal. unfold posix.normalize_step.
  apply plain_name_spec in Hname as (Hvalid & Hdot & Hdotdot & _).
  apply valid_name_spec in Hvalid as [Hne _].
  apply String.eqb_neq in Hne, Hdot, Hdotdot.
  by rewrite Hne, Hdot, Hdotdot.
Qed.

Lemma Array_join_plain_head names :
  names ≠ [] → Forall (λ name, plain_name name = true) names →
  ∃ c tail, Array_join "/" names = String c tail ∧ c ≠ Chars.slash.
Proof.
  intros Hnil Hall. destruct Hall as [|name names Hname _]; [done|].
  apply plain_name_spec in Hname as (Hvalid & _).
  apply valid_name_spec in Hvalid as [Hne Hslash].
  destruct name as [|c name]; [done|].
  exists c. destruct names as [|name' names].
  - exists name. split; [done|]. intros ->. apply Hslash. by left.
  - eexists. rewrite Array_join_cons, append_cons. split; [done|].
    intros ->. apply Hslash. by left.
Qed.

Lemma Array_join_plain_no_trailing_slash names :
  names ≠ [] → Forall (λ name, plain_name name = true) names →
  endsWith (Array_join "/" names) "/" = false.
Proof.
  intros Hnil Hall. apply not_true_is_false.
  intros (base & Heq)%endsWith_iff.
  pose proof (split_Array_join Chars.slash names Hnil
                (plain_names_slash_free _ Hall)) as Hsplit.
  change (str Chars.slash) with "/" in Hsplit. rewrite Heq in Hsplit.
  change (base +:+ "/") with (base +:+ String Chars.slash EmptyString) in Hsplit.
  rewrite split_app_sep in Hsplit. cbn [split] in Hsplit.
  assert (Hlast : EmptyString ∈ names).
  { rewrite <- Hsplit. apply elem_of_app. right. by left. }
  rewrite Forall_forall in Hall. apply Hall in Hlast.
  apply plain_name_spec in Hlast as (Hvalid & _).
  by apply valid_name_spec in Hvalid as [? _].
Qed.

(** [posix.normalize] leaves a path of plain names as it is. *)
Lemma normalize_plain names :
  names ≠ [] → Forall (λ name, plain_name name = true) names →
  posix.normalize (Array_join "/" names) = Array_join "/" names.
Proof.
  intros Hnil Hall.
  destruct (Array_join_plain_head names Hnil Hall) as (c & tail & Hhead & Hc).
  unfold posix.normalize.
  assert (Hne : String.eqb (Array_join "/" names) EmptyString = false)
    by (rewrite Hhead; done).
  assert (Habs : startsWith (Array_join "/" names) "/" = false).
  { rewrite Hhead. cbn [startsWith]. apply andb_false_iff. left.
    by apply Ascii.eqb_neq. }
  rewrite Hne, Habs, (Array_join_plain_no_trailing_slash names Hnil Hall).
  cbn [negb]. unfold posix.normalizeString.
  pose proof (split_Array_join Chars.slash names Hnil
                (plain_names_slash_free _ Hall)) as Hsplit.
  change (str Chars.slash) with "/" in Hsplit. rewrite Hsplit.
  rewrite (normalize_steps_plain _ _ _ Hall), app_nil_r, rev_involutive.
  rewrite Hne. cbn [andb negb]. by rewrite andb_false_r.
Qed.

Lemma replace_backslashes_id s :
  Chars.backslash ∉ list_ascii_of_string s → replace_backslashes s = s.
Proof.
  induction s as [|c s IH]; [done|]. cbn [list_ascii_of_string].
  rewrite not_elem_of_cons. intros [Hc Hs]. cbn [replace_backslashes].
  rewrite IH by done.
  destruct (Ascii.eqb c Chars.backslash) eqn:Heq; [|done].
  apply Ascii.eqb_eq in Heq. congruence.
Qed.

Lemma Array_join_plain_no_backslash names :
  Forall (λ name, plain_name name = true) names →
  Chars.backslash ∉ list_ascii_of_string (Array_join "/" names).
Proof.
  intros Hall. induction Hall as [|name names Hname _ IH].
  - apply not_elem_of_nil.
  - apply plain_name_spec in Hname as (_ & _ & _ & Hname).
    destruct names as [|name' names]; [done|].
    rewrite Array_join_cons, !list_ascii_append, !not_elem_of_app.
    split; [done|]. split; [|done].
    cbn. rewrite not_elem_of_cons. split; [discriminate|apply not_elem_of_nil].
Qed.

Lemma join_plain kind names :
  plain_name kind = true →
  names ≠ [] → Forall (λ name, plain_name name = true) names →
  join [kind; Array_join "/" names] = Array_join "/" (kind :: names).
Proof.
  intros Hkind Hnil Hall. unfold join, posix.join.
  destruct (Array_join_plain_head names Hnil Hall) as (c & tail & Hhead & _).
  assert (Hkind_ne : kind ≠ EmptyString).
  { apply plain_name_spec in Hkind as (Hvalid & _).
    by apply valid_name_spec in Hvalid as [? _]. }
  rewrite filter_cons_True by done.
  rewrite filter_cons_True by (rewrite Hhead; done).
  rewrite filter_nil. cbv iota.
  assert (Hjoin : Array_join "/" [kind; Array_join "/" names]
                  = Array_join "/" (kind :: names)).
  { destruct names; [done|]. by rewrite !Array_join_cons. }
  rewrite Hjoin. apply normalize_plain; [done|by constructor].
Qed.

Lemma entry_key_plain_kind kind names :
  plain_name kind = true → startsWith kind ".." = false →
  names ≠ [] → Forall (λ name, plain_name name = true) names →
  entry_key kind (Array_join "/" names)
  = "./" +:+ kind +:+ "/" +:+ Array_join "/" names.
Proof.
  intros Hkind Hdd Hnil Hall. unfold entry_key, toImportSpecifier.
  rewrite join_plain by done.
  rewrite (normalize_plain (kind :: names)) by (done || by constructor).
  rewrite replace_backslashes_id
    by (apply Array_join_plain_no_backslash; by constructor).
  assert (Hstart : startsWith (Array_join "/" (kind :: names)) ".." = false).
  { destruct names as [|name names]; [done|]. rewrite Array_join_cons.
    revert Hdd. destruct kind as [|a [|b kind]].
    - discriminate Hkind.
    - intros _. rewrite append_cons, append_nil.
      change ("/" +:+ Array_join "/" (name :: names))
        with (String Chars.slash (Array_join "/" (name :: names))).
      cbn [startsWith]. by destruct (Ascii.eqb a ".").
    - rewrite !append_cons. cbn [startsWith]. done. }
  rewrite Hstart. cbn [negb].
  destruct names; [done|]. by rewrite Array_join_cons.
Qed.

(** X5.  For a route or island file whose relative path is made of plain
    names (no dot segment, no backslash), the key in the generated object is
    "./routes/" or "./islands/" followed by that path, unchanged. *)
Theorem entry_key_plain (rel : string) :
  plain_path rel →
  entry_key "routes" rel = "./routes/" +:+ rel
  ∧ entry_key "islands" rel = "./islands/" +:+ rel.
Proof.
  intros (names & Hnil & Hall & ->).
  split; by rewrite entry_key_plain_kind.
Qed.

Lemma plain_path_joke : plain_path "api/joke.ts".
Proof.
  exists ["api"; "joke.ts"]. split; [done|]. split; [|done].
  repeat constructor.
Qed.

Lemma entry_key_plain_witness :
  plain_path "api/joke.ts"
  ∧ entry_key "routes" "api/joke.ts" = "./routes/" +:+ "api/joke.ts"
  ∧ entry_key "islands" "api/joke.ts" = "./islands/" +:+ "api/joke.ts".
Proof.
  split; [exact plain_path_joke|].
  exact (entry_key_plain "api/joke.ts" plain_path_joke).
Defined.

Lemma object_entries_keys alias kind files :
  (object_entries alias kind files).*1 = entry_key kind <$> files.
Proof.
  unfold object_entries. rewrite fmap_imap.
  rewrite <- (imap_const (entry_key kind)). by apply imap_ext.
Qed.

(** X6.  When the route files are pairwise different paths made of plain
    names, the keys of the generated [routes] object are pairwise different,
    and likewise for the [islands] object: no entry of an object literal
    shadows another. *)
Theorem object_entries_keys_distinct (alias : string) (files : list string) :
  NoDup files → Forall plain_path files →
  NoDup (object_entries alias "routes" files).*1
  ∧ NoDup (object_entries alias "islands" files).*1.
Proof.
  intros Hnodup Hplain. rewrite !object_entries_keys.
  assert (Hroutes : entry_key "routes" <$> files = String.app "./routes/" <$> files).
  { apply Forall_fmap_ext_1. eapply Forall_impl; [exact Hplain|].
    intros rel (names & Hnil & Hall & ->). by rewrite entry_key_plain_kind. }
  assert (Hislands : entry_key "islands" <$> files
                     = String.app "./islands/" <$> files).
  { apply Forall_fmap_ext_1. eapply Forall_impl; [exact Hplain|].
    intros rel (names & Hnil & Hall & ->). by rewrite entry_key_plain_kind. }
  rewrite Hroutes, Hislands. split; apply NoDup_fmap_2; try done; apply _.
Qed.

Lemma plain_path_index : plain_path "index.tsx".
Proof. exists ["index.tsx"]. split; [done|]. split; [|done]. repeat constructor. Qed.

Lemma object_entries_keys_distinct_witness :
  (NoDup ["api/joke.ts"; "index.tsx"]
   ∧ Forall plain_path ["api/joke.ts"; "index.tsx"])
  ∧ NoDup (object_entries "$" "routes" ["api/joke.ts"; "index.tsx"]).*1
  ∧ NoDup (object_entries "$" "islands" ["api/joke.ts"; "index.tsx"]).*1.
Proof.
  assert (Hnodup : NoDup ["api/joke.ts"; "index.tsx"])
    by (apply (bool_decide_unpack _); vm_compute; exact I).
  assert (Hplain : Forall plain_path ["api/joke.ts"; "index.tsx"])
    by (repeat constructor; [exact plain_path_joke | exact plain_path_index]).
  split; [by split|].
  exact (object_entries_keys_distinct "$" ["api/joke.ts"; "index.tsx"]
           Hnodup Hplain).
Defined.

(** *** Relative and bare specifiers *)

Lemma startsWith_dotdot s :
  startsWith s ".." = true → ∃ tail, s = ".." +:+ tail.
Proof.
  destruct s as [|a [|b s]]; cbn [startsWith]; try done.
  - by rewrite andb_false_r.
  - rewrite andb_true_r, andb_true_iff, !Ascii.eqb_eq.
    intros [-> ->]. by exists s.
Qed.

(** X24.  For every input path, the specifier returned by
    [toImportSpecifier] contains no backslash; it is the normalized path
    prefixed with "./", unless the normalized path begins with "..", in
    which case it is the normalized path itself; and it is bare exactly when
    the normalized path, backslashes replaced, begins with ".." not followed
    by a slash. *)
Theorem toImportSpecifier_dot_relative (file : string) :
  (Chars.backslash ∉ list_ascii_of_string (toImportSpecifier file))
  ∧ (if startsWith (posix.normalize file) ".."
     then toImportSpecifier file = replace_backslashes (posix.normalize file)
          ∧ startsWith (toImportSpecifier file) ".." = true
     else toImportSpecifier file
          = "./" +:+ replace_backslashes (posix.normalize file)
          ∧ startsWith (toImportSpecifier file) "./" = true)
  ∧ (is_bare (toImportSpecifier file) = true
     ↔ startsWith (replace_backslashes (posix.normalize file)) ".." = true
       ∧ startsWith (replace_backslashes (posix.normalize file)) "../"
         = false).
Proof.
  unfold toImportSpecifier.
  pose proof (replace_backslashes_clean (posix.normalize file)) as Hclean.
  pose proof (startsWith_dotdot_replace (posix.normalize file)) as Hdd.
  destruct (startsWith (replace_backslashes (posix.normalize file)) "..")
    eqn:Hpre; rewrite <- Hdd; cbn [negb].
  - split; [done|]. split; [done|].
    destruct (startsWith_dotdot _ Hpre) as [tail ->].
    unfold is_bare. cbn [startsWith append Ascii.eqb Bool.eqb andb orb].
    rewrite negb_true_iff. naive_solver.
  - split; [|split; [done|]].
    + rewrite list_ascii_append. simpl.
      rewrite !not_elem_of_cons. repeat split; try done.
    + split; [done | by intros [? _]].
Qed.

(** *** Import aliases *)

Global Instance Number_toString_inj : Inj (=) (=) Number_toString.
Proof.
  intros n m Heq. apply DecimalNat.Unsigned.to_uint_inj.
  pose proof (Number_toString_parse n) as Hn.
  rewrite Heq, Number_toString_parse in Hn. congruence.
Qed.

Lemma Number_toString_not_dollar n tail :
  Number_toString n ≠ String "$" tail.
Proof.
  intros Heq. pose proof (Number_toString_parse n) as Hn.
  rewrite Heq in Hn. cbn in Hn.
  destruct (NilEmpty.uint_of_string tail); discriminate Hn.
Qed.

Lemma object_entries_aliases alias kind files :
  (object_entries alias kind files).*2
  = imap (λ i _, alias +:+ Number_toString i) files.
Proof. unfold object_entries. rewrite fmap_imap. by apply imap_ext. Qed.

Lemma NoDup_imap_index {A B} (f : nat → B) (l : list A) :
  Inj (=) (=) f → NoDup (imap (λ i _, f i) l).
Proof.
  intros Hinj. apply NoDup_alt. intros i j y Hi Hj.
  rewrite list_lookup_imap in Hi, Hj.
  destruct (l !! i); [|done]. destruct (l !! j); [|done].
  simpl in Hi, Hj. apply Hinj. congruence.
Qed.

(** X7.  Whatever the route and island lists, the import aliases of the
    generated module are pairwise different: [$i] is a different name for
    every index, and no route alias [$i] is an island alias [$$j]. *)
Theorem import_aliases_distinct (routePaths islandPaths : list string) :
  NoDup ((object_entries "$" "routes" routePaths).*2
         ++ (object_entries "$$" "islands" islandPaths).*2).
Proof.
  rewrite !object_entries_aliases. apply NoDup_app. split; [|split].
  - apply (NoDup_imap_index (λ i, "$" +:+ Number_toString i)).
    intros i j Heq. by simplify_eq.
  - intros alias Hroute Hisland.
    apply elem_of_lookup_imap in Hroute as (i & _ & -> & _).
    apply elem_of_lookup_imap in Hisland as (j & _ & Heq & _).
    rewrite !append_cons, !append_nil in Heq. injection Heq as Heq.
    by apply Number_toString_not_dollar in Heq.
  - apply (NoDup_imap_index (λ i, "$$" +:+ Number_toString i)).
    intros i j Heq. by simplify_eq.
Qed.

(** *** From the scan to the keys *)

Lemma plain_entry_valid entry : plain_entry entry = true → valid_entry entry = true.
Proof.
  induction entry as [name|name children IH] using FsEntry_forall_ind;
    cbn [plain_entry valid_entry].
  - intros Hname. by apply plain_name_spec in Hname as [? _].
  - rewrite !andb_true_iff. intros [Hname Hchildren].
    split; [by apply plain_name_spec in Hname as [? _]|].
    induction IH as [|child children Hchild _ IHchildren]; [done|].
    cbn [forallb] in *. apply andb_true_iff in Hchildren as [Hc Hcs].
    apply andb_true_iff. split; [by apply Hchild | by apply IHchildren].
Qed.

Lemma plain_entries_valid entries :
  forallb plain_entry entries = true → forallb valid_entry entries = true.
Proof.
  induction entries as [|entry entries IH]; [done|]. cbn [forallb].
  rewrite !andb_true_iff. intros [Hentry Hentries].
  split; [by apply plain_entry_valid | by apply IH].
Qed.

Lemma entry_files_plain entry :
  plain_entry entry = true → ∀ rel, rel ∈ entry_files entry → plain_path rel.
Proof.
  induction entry as [name|name children IH] using FsEntry_forall_ind;
    cbn [plain_entry entry_files]; intros Hplain rel Hin.
  - apply list_elem_of_singleton in Hin as ->. exists [name].
    split; [done|]. split; [by constructor|done].
  - apply andb_true_iff in Hplain as [Hname Hchildren].
    apply list_elem_of_fmap in Hin as (rel' & -> & Hin).
    assert (Hrel' : plain_path rel').
    { clear Hname. induction IH as [|child children Hchild _ IHchildren];
        cbn [flat_map forallb] in *; [by apply elem_of_nil in Hin|].
      apply andb_true_iff in Hchildren as [Hc Hcs].
      apply elem_of_app in Hin as [Hin|Hin]; [by apply Hchild | by apply IHchildren]. }
    destruct Hrel' as (names & Hnil & Hall & ->).
    exists (name :: names). split; [done|]. split; [by constructor|].
    by destruct names.
Qed.

Lemma tree_files_plain entries rel :
  forallb plain_entry entries = true → rel ∈ tree_files entries →
  plain_path rel.
Proof.
  unfold tree_files. induction entries as [|entry entries IH];
    cbn [flat_map forallb]; intros Hplain Hin; [by apply elem_of_nil in Hin|].
  apply andb_true_iff in Hplain as [Hentry Hentries].
  apply elem_of_app in Hin as [Hin|Hin];
    [by eapply entry_files_plain | by apply IH].
Qed.

(** X8.  Scan, then generate: for a conflict-free tree of plain names, the
    keys of the [routes] object built from the list [collectDir] returns are
    pairwise different, and they are, up to order, the relative paths of the
    matching files prefixed with "./routes/". *)
Theorem collectDir_routes_keys (fs : FileSystem) (dir : string)
  (entries : list FsEntry) :
  fs dir = Return (Directory entries) →
  forallb plain_entry entries = true →
  NoDup (strip_ext <$> matching_files entries) →
  ∃ routePaths,
    collectDir fs dir = Return routePaths
    ∧ NoDup (object_entries "$" "routes" routePaths).*1
    ∧ (object_entries "$" "routes" routePaths).*1
      ≡ₚ String.app "./routes/" <$> matching_files entries.
Proof.
  intros Hdir Hplain Hkeys.
  pose proof (plain_entries_valid _ Hplain) as Hvalid.
  exists (Array_sort (matching_files entries)).
  split; [by apply collectDir_returns|].
  assert (Hperm : Array_sort (matching_files entries) ≡ₚ matching_files entries)
    by apply merge_sort_Permutation.
  assert (Hkey : entry_key "routes" <$> Array_sort (matching_files entries)
                 = String.app "./routes/" <$> Array_sort (matching_files entries)).
  { apply Forall_fmap_ext_1, Forall_forall. intros rel Hrel.
    rewrite Hperm in Hrel. unfold matching_files in Hrel.
    apply list_elem_of_filter in Hrel as [_ Hrel].
    destruct (tree_files_plain _ _ Hplain Hrel) as (names & Hnil & Hall & ->).
    by rewrite entry_key_plain_kind. }
  rewrite object_entries_keys, Hkey. split.
  - apply NoDup_fmap_2; [apply _|]. rewrite Hperm.
    by apply NoDup_fmap_1 in Hkeys.
  - by rewrite Hperm.
Qed.

Lemma collectDir_routes_keys_witness :
  NoDup (strip_ext <$> matching_files sample_routes)
  ∧ ∃ routePaths,
      collectDir sample_fs "/app/routes" = Return routePaths
      ∧ NoDup (object_entries "$" "routes" routePaths).*1
      ∧ (object_entries "$" "routes" routePaths).*1
        ≡ₚ String.app "./routes/" <$> matching_files sample_routes.
Proof.
  assert (Hkeys : NoDup (strip_ext <$> matching_files sample_routes))
    by (apply (bool_decide_unpack _); vm_compute; exact I).
  split; [exact Hkeys|].
  exact (collectDir_routes_keys sample_fs "/app/routes" sample_routes
           eq_refl eq_refl Hkeys).
Defined.

(** ** The entrypoint collector, further *)

(** X9.  The [signals] entry is there exactly when the import map resolves
    [@preact/signals]; no island and no plugin can add or replace it. *)
Theorem collectEntrypoints_signals (meta : ImportMeta) (dev : bool)
  (islands : list Island.t) (plugins : list Plugin.t) :
  collectEntrypoints meta dev islands plugins !! "signals"
  = if in_import_map meta "@preact/signals"
    then Some (resolve_relative meta "../runtime/entrypoints/signals.ts")
    else None.
Proof.
  unfold collectEntrypoints.
  assert (Hbuiltin : "signals" ∈ ["main"; "deserializer"; "signals"])
    by (rewrite !elem_of_cons; auto).
  rewrite add_plugins_miss.
  2: { intros plugin _. apply not_plugin_writes_builtin.
       intros ??. by apply builtin_not_plugin_key. }
  rewrite add_islands_miss.
  2: { intros island _. by apply builtin_not_island_key. }
  destruct (in_import_map meta "@preact/signals").
  - apply lookup_insert_eq.
  - by rewrite !lookup_insert_ne.
Qed.

Lemma add_islands_inv islands (entryPoints : gmap string string) key url :
  foldl add_island entryPoints islands !! key = Some url →
  entryPoints !! key = Some url
  ∨ ∃ island, island ∈ islands
              ∧ key = island_key (Island.id island)
              ∧ url = Island.url island.
Proof.
  revert entryPoints. induction islands as [|island islands IH];
    intros entryPoints Hlookup; cbn [foldl] in Hlookup; [by left|].
  apply IH in Hlookup as [Hlookup|(later & Hin & -> & ->)].
  - unfold add_island in Hlookup. rewrite lookup_insert in Hlookup.
    case_decide as Hkey.
    + right. exists island. split; [by left|]. split; [done|]. congruence.
    + by left.
  - right. exists later. split; [by right|done].
Qed.

Lemma add_entries_inv pluginName entries (entryPoints : gmap string string)
  key url :
  foldl (λ acc entry, <[plugin_key pluginName entry.1 := entry.2]> acc)
        entryPoints entries !! key = Some url →
  entryPoints !! key = Some url
  ∨ ∃ name, (name, url) ∈ entries ∧ key = plugin_key pluginName name.
Proof.
  revert entryPoints. induction entries as [|[name url'] entries IH];
    intros entryPoints Hlookup; cbn [foldl] in Hlookup; [by left|].
  apply IH in Hlookup as [Hlookup|(later & Hin & ->)].
  - cbn [fst snd] in Hlookup. rewrite lookup_insert in Hlookup.
    case_decide as Hkey.
    + right. exists name. injection Hlookup as <-. split; [by left|done].
    + by left.
  - right. exists later. split; [by right|done].
Qed.

Lemma add_plugins_inv plugins (entryPoints : gmap string string) key url :
  foldl add_plugin entryPoints plugins !! key = Some url →
  entryPoints !! key = Some url
  ∨ ∃ plugin entries name,
      plugin ∈ plugins
      ∧ Plugin.entrypoints plugin = Some entries
      ∧ entries !! name = Some url
      ∧ key = plugin_key (Plugin.name plugin) name.
Proof.
  revert entryPoints. induction plugins as [|plugin plugins IH];
    intros entryPoints Hlookup; cbn [foldl] in Hlookup; [by left|].
  apply IH in Hlookup as [Hlookup|(later & entries & name & Hin & Hrest)].
  - unfold add_plugin in Hlookup.
    apply add_entries_inv in Hlookup as [Hlookup|(name & Hin & ->)]; [by left|].
    right. destruct (Plugin.entrypoints plugin) as [entries|] eqn:Hentries.
    + exists plugin, entries, name. split; [by left|]. split; [done|].
      split; [|done]. by apply elem_of_map_to_list in Hin.
    + cbn in Hin. unfold Object_entries in Hin.
      rewrite map_to_list_empty in Hin. by apply elem_of_nil in Hin.
  - right. exists later, entries, name. split; [by right|done].
Qed.

(** X10.  [collectEntrypoints] returns nothing but what it is given: every
    key of the map is [main], [deserializer], [signals] (only when the
    import map has it), the key of an island of the list with that island's
    URL, or the key of an entry declared by a plugin of the list with the
    URL declared there. *)
Theorem collectEntrypoints_only (meta : ImportMeta) (dev : bool)
  (islands : list Island.t) (plugins : list Plugin.t) (key url : string) :
  collectEntrypoints meta dev islands plugins !! key = Some url →
  key = "main"
  ∨ key = "deserializer"
  ∨ (key = "signals" ∧ in_import_map meta "@preact/signals" = true)
  ∨ (∃ island, island ∈ islands
               ∧ key = "island-" +:+ Island.id island
               ∧ url = Island.url island)
  ∨ (∃ plugin entries name,
        plugin ∈ plugins
        ∧ Plugin.entrypoints plugin = Some entries
        ∧ entries !! name = Some url
        ∧ key = "plugin-" +:+ Plugin.name plugin +:+ "-" +:+ name).
Proof.
  unfold collectEntrypoints. intros Hlookup.
  apply add_plugins_inv in Hlookup as [Hlookup|Hplugin]; [|by do 4 right].
  apply add_islands_inv in Hlookup as [Hlookup|Hisland]; [|by do 3 right; left].
  destruct (in_import_map meta "@preact/signals").
  - rewrite !lookup_insert in Hlookup. repeat case_decide; subst; auto.
    by rewrite lookup_empty in Hlookup.
  - rewrite !lookup_insert in Hlookup. repeat case_decide; subst; auto.
    by rewrite lookup_empty in Hlookup.
Qed.

Lemma collectEntrypoints_only_witness :
  collectEntrypoints sample_meta true [counter_a] [tailwind_v1]
    !! "plugin-tailwind-main" = Some "file:///plugins/v1/main.ts"
  ∧ ("plugin-tailwind-main" = "main"
     ∨ "plugin-tailwind-main" = "deserializer"
     ∨ ("plugin-tailwind-main" = "signals"
        ∧ in_import_map sample_meta "@preact/signals" = true)
     ∨ (∃ island, island ∈ [counter_a]
                  ∧ "plugin-tailwind-main" = "island-" +:+ Island.id island
                  ∧ "file:///plugins/v1/main.ts" = Island.url island)
     ∨ (∃ plugin entries name,
           plugin ∈ [tailwind_v1]
           ∧ Plugin.entrypoints plugin = Some entries
           ∧ entries !! name = Some "file:///plugins/v1/main.ts"
           ∧ "plugin-tailwind-main"
             = "plugin-" +:+ Plugin.name plugin +:+ "-" +:+ name)).
Proof.
  assert (Hlookup : collectEntrypoints sample_meta true [counter_a] [tailwind_v1]
                      !! "plugin-tailwind-main"
                    = Some "file:///plugins/v1/main.ts")
    by (vm_compute; reflexivity).
  split; [exact Hlookup|].
  exact (collectEntrypoints_only sample_meta true [counter_a] [tailwind_v1]
           "plugin-tailwind-main" "file:///plugins/v1/main.ts" Hlookup).
Defined.

Lemma add_plugin_nothing (entryPoints : gmap string string) plugin :
  Plugin.entrypoints plugin = None ∨ Plugin.entrypoints plugin = Some ∅ →
  add_plugin entryPoints plugin = entryPoints.
Proof.
  unfold add_plugin, Object_entries.
  intros [->| ->]; simpl; by rewrite map_to_list_empty.
Qed.

Lemma add_plugins_nothing (entryPoints : gmap string string) plugins :
  Forall (λ plugin, Plugin.entrypoints plugin = None
                    ∨ Plugin.entrypoints plugin = Some ∅) plugins →
  foldl add_plugin entryPoints plugins = entryPoints.
Proof.
  intros Hnone. revert entryPoints.
  induction Hnone as [|plugin plugins Hplugin _ IH]; intros entryPoints; [done|].
  cbn [foldl]. by rewrite add_plugin_nothing, IH.
Qed.

(** X11.  A plugin that declares no entrypoints, by leaving the field out or
    by giving an empty object, contributes nothing: a list of such plugins
    gives the same map as no plugins at all. *)
Theorem collectEntrypoints_no_entries (meta : ImportMeta) (dev : bool)
  (islands : list Island.t) (plugins : list Plugin.t) :
  Forall (λ plugin, Plugin.entrypoints plugin = None
                    ∨ Plugin.entrypoints plugin = Some ∅) plugins →
  collectEntrypoints meta dev islands plugins
  = collectEntrypoints meta dev islands [].
Proof.
  intros Hnone. unfold collectEntrypoints. cbv zeta. cbn [foldl].
  by apply add_plugins_nothing.
Qed.

Lemma collectEntrypoints_no_entries_witness :
  Forall (λ plugin, Plugin.entrypoints plugin = None
                    ∨ Plugin.entrypoints plugin = Some ∅) silent_plugins
  ∧ collectEntrypoints sample_meta true [counter_a] silent_plugins
    = collectEntrypoints sample_meta true [counter_a] [].
Proof.
  assert (Hnone : Forall (λ plugin, Plugin.entrypoints plugin = None
                                    ∨ Plugin.entrypoints plugin = Some ∅)
                         silent_plugins).
  { constructor; [by left|]. constructor; [by right|]. constructor. }
  split; [exact Hnone|].
  exact (collectEntrypoints_no_entries sample_meta true [counter_a]
           silent_plugins Hnone).
Defined.

(** ** The dev cycle, further *)

(** X12.  With a runtime older than the minimum, [dev] stops at once: it
    fails with the version message (which recommends [brew upgrade deno] for
    a homebrew install and [deno upgrade] otherwise) before any effect, and
    the environment is as it was. *)
Theorem dev_old_runtime (w : World) (dir outDir entrypoint : string)
  (env0 : gmap string string) :
  version_gte_min w = false →
  ∃ message,
    run_dev w dir outDir entrypoint env0
    = (Throw (Error message), {| env := env0; trace := [] |})
    ∧ startsWith message "Deno version 1.31.0 or higher is required." = true
    ∧ includes message (if execPath_homebrew w
                        then "`brew upgrade deno`" else "`deno upgrade`")
      = true.
Proof.
  intros Hversion. unfold run_dev. rewrite dev_unfold.
  unfold ensureMinDenoVersion. rewrite Hversion. cbn [negb].
  eexists. split; [reflexivity|].
  destruct (execPath_homebrew w); split; vm_compute; reflexivity.
Qed.

Lemma dev_old_runtime_witness :
  ∃ message,
    run_dev (world_with false true sample_fs (λ _, Throw (SyntaxError "unused")))
            "/app" "/app/.fresh" "file:///app/main.ts" ∅
    = (Throw (Error message), {| env := ∅; trace := [] |})
    ∧ startsWith message "Deno version 1.31.0 or higher is required." = true
    ∧ includes message "`brew upgrade deno`" = true.
Proof.
  exact (dev_old_runtime
           (world_with false true sample_fs (λ _, Throw (SyntaxError "unused")))
           "/app" "/app/.fresh" "file:///app/main.ts" ∅ eq_refl).
Defined.

(** X13.  When a directory scan fails (a route conflict, a permission
    error), the cycle fails right after the update check, whether that check
    succeeded or not, with the error of a scan that failed: of the one that
    failed when only one did, of the one that rejected first when both did.
    The recorded manifest is not touched and nothing is generated. *)
Theorem dev_scan_failure (w : World) (dir outDir entrypoint : string)
  (env0 : gmap string string) :
  version_gte_min w = true →
  (∃ err, collectDir (fs w) (join [dir; "./routes"]) = Throw err)
  ∨ (∃ err, collectDir (fs w) (join [dir; "./islands"]) = Throw err) →
  ∃ err,
    run_dev w dir outDir entrypoint env0
    = (Throw err, {| env := env0; trace := [UpdateCheck] |})
    ∧ (∀ routePaths,
          collectDir (fs w) (join [dir; "./routes"]) = Return routePaths
          → collectDir (fs w) (join [dir; "./islands"]) = Throw err)
    ∧ (∀ islandPaths,
          collectDir (fs w) (join [dir; "./islands"]) = Return islandPaths
          → collectDir (fs w) (join [dir; "./routes"]) = Throw err)
    ∧ (∀ err_routes err_islands,
          collectDir (fs w) (join [dir; "./routes"]) = Throw err_routes
          → collectDir (fs w) (join [dir; "./islands"]) = Throw err_islands
          → err = if routes_scan_rejects_first w
                  then err_routes else err_islands).
Proof.
  intros Hversion. rewrite dev_run_unfold by done. unfold scans.
  destruct (collectDir (fs w) (join [dir; "./routes"])) as [r|err_r];
    destruct (collectDir (fs w) (join [dir; "./islands"])) as [i|err_i];
    cbn [Promise_all]; intros Hscan.
  - destruct Hscan as [[err Herr]|[err Herr]]; discriminate.
  - exists err_i. split; [done|]. repeat split; intros; congruence.
  - exists err_r. split; [done|]. repeat split; intros; congruence.
  - eexists. split; [done|]. repeat split; intros; by simplify_eq.
Qed.

Lemma dev_scan_failure_witness :
  collectDir conflict_fs (join ["/app"; "./routes"])
  = Throw (Error (conflict_message "/app/routes" "foo"))
  ∧ ∃ err,
      run_dev (world_with true false conflict_fs
                 (λ _, Throw (SyntaxError "unused")))
              "/app" "/app/.fresh" "file:///app/main.ts" recorded_env
      = (Throw err, {| env := recorded_env; trace := [UpdateCheck] |})
      ∧ (∀ islandPaths,
            collectDir conflict_fs (join ["/app"; "./islands"])
            = Return islandPaths
            → collectDir conflict_fs (join ["/app"; "./routes"]) = Throw err).
Proof.
  assert (Hscan : collectDir conflict_fs (join ["/app"; "./routes"])
                  = Throw (Error (conflict_message "/app/routes" "foo")))
    by (vm_compute; reflexivity).
  split; [exact Hscan|].
  destruct (dev_scan_failure
              (world_with true false conflict_fs
                 (λ _, Throw (SyntaxError "unused")))
              "/app" "/app/.fresh" "file:///app/main.ts" recorded_env
              eq_refl (or_introl (ex_intro _ _ Hscan)))
    as (err & Hrun & _ & Hislands & _).
  exists err. split; [exact Hrun | exact Hislands].
Defined.

(** X14.  When the environment variable holds text that [JSON.parse]
    rejects, the cycle fails with that error and leaves the variable as it
    is: the new manifest is not recorded, and nothing is generated. *)
Theorem dev_unparsable_record (w : World) (dir outDir entrypoint : string)
  (env0 : gmap string string) (routePaths islandPaths : list string)
  (text : string) (err : JsError) :
  version_gte_min w = true →
  collectDir (fs w) (join [dir; "./routes"]) = Return routePaths →
  collectDir (fs w) (join [dir; "./islands"]) = Return islandPaths →
  env0 !! FRSH_DEV_PREVIOUS_MANIFEST = Some text →
  text ≠ EmptyString →
  JSON_parse w text = Throw err →
  run_dev w dir outDir entrypoint env0
  = (Throw err, {| env := env0; trace := [UpdateCheck] |}).
Proof.
  intros Hversion Hroutes Hislands Henv Htext Hparse.
  rewrite dev_run_unfold by done.
  rewrite (scans_return _ _ _ _ Hroutes Hislands). cbv zeta.
  rewrite Henv. cbn [load_currentManifest].
  apply String.eqb_neq in Htext. by rewrite Htext, Hparse.
Qed.

Lemma dev_unparsable_record_witness :
  ({[ FRSH_DEV_PREVIOUS_MANIFEST := "{oops" ]} : gmap string string)
    !! FRSH_DEV_PREVIOUS_MANIFEST = Some "{oops"
  ∧ run_dev (world_with true false sample_fs
               (λ _, Throw (SyntaxError "Unexpected token")))
            "/app" "/app/.fresh" "file:///app/main.ts"
            {[ FRSH_DEV_PREVIOUS_MANIFEST := "{oops" ]}
    = (Throw (SyntaxError "Unexpected token"),
       {| env := {[ FRSH_DEV_PREVIOUS_MANIFEST := "{oops" ]};
          trace := [UpdateCheck] |}).
Proof.
  assert (Henv : ({[ FRSH_DEV_PREVIOUS_MANIFEST := "{oops" ]}
                    : gmap string string) !! FRSH_DEV_PREVIOUS_MANIFEST
                 = Some "{oops") by (vm_compute; reflexivity).
  split; [exact Henv|].
  refine (dev_unparsable_record
            (world_with true false sample_fs
               (λ _, Throw (SyntaxError "Unexpected token")))
            "/app" "/app/.fresh" "file:///app/main.ts" _
            ["api/joke.ts"; "index.tsx"] [] "{oops" _
            eq_refl _ _ Henv _ eq_refl).
  - vm_compute. reflexivity.
  - vm_compute. reflexivity.
  - discriminate.
Defined.

(** X15.  An environment variable set to the empty string counts as no
    record: the change detector does not call [JSON.parse], compares with
    the empty manifest, and records the new manifest. *)
Theorem detect_change_empty_record (w : World) (newManifest : Manifest)
  (st : State) :
  env st !! FRSH_DEV_PREVIOUS_MANIFEST = Some EmptyString →
  detect_change w newManifest st
  = (Return (bool_decide (routes newManifest ≠ [] ∨ islands newManifest ≠ [])),
     {| env := <[FRSH_DEV_PREVIOUS_MANIFEST := JSON.stringify newManifest]>
                 (env st);
        trace := trace st ++ [EnvSet FRSH_DEV_PREVIOUS_MANIFEST
                                     (JSON.stringify newManifest)] |}).
Proof.
  intros Henv.
  rewrite (detect_change_run _ _ _ (mkManifest [] [])) by by rewrite Henv.
  by rewrite manifestChanged_untyped_manifest, manifestChanged_empty.
Qed.

Lemma detect_change_empty_record_witness :
  ({[ FRSH_DEV_PREVIOUS_MANIFEST := EmptyString ]} : gmap string string)
    !! FRSH_DEV_PREVIOUS_MANIFEST = Some EmptyString
  ∧ (detect_change
       (world_with true false sample_fs (λ _, Throw (SyntaxError "never called")))
       (mkManifest ["index.tsx"] [])
       {| env := {[ FRSH_DEV_PREVIOUS_MANIFEST := EmptyString ]}; trace := [] |}).1
    = Return (bool_decide (["index.tsx"] ≠ [] ∨ @nil string ≠ [])).
Proof.
  assert (Henv : ({[ FRSH_DEV_PREVIOUS_MANIFEST := EmptyString ]}
                    : gmap string string) !! FRSH_DEV_PREVIOUS_MANIFEST
                 = Some EmptyString) by (vm_compute; reflexivity).
  split; [exact Henv|].
  exact (f_equal fst
           (detect_change_empty_record
              (world_with true false sample_fs
                 (λ _, Throw (SyntaxError "never called")))
              (mkManifest ["index.tsx"] [])
              {| env := {[ FRSH_DEV_PREVIOUS_MANIFEST := EmptyString ]};
                 trace := [] |} Henv)).
Defined.

Lemma stringify_not_empty manifest :
  String.eqb (JSON.stringify manifest) EmptyString = false.
Proof. unfold JSON.stringify. by rewrite append_cons. Qed.

(** X17.  A cycle that starts with the variable holding the serialization of
    the very manifest it collects, which is what a cycle over the same tree
    records, does not enter [generate] when the manifest file exists,
    provided [JSON.parse] reads that serialization back as the manifest. *)
Theorem dev_second_cycle_reuses (w : World) (dir outDir entrypoint : string)
  (env1 : gmap string string) (routePaths islandPaths : list string) :
  version_gte_min w = true →
  collectDir (fs w) (join [dir; "./routes"]) = Return routePaths →
  collectDir (fs w) (join [dir; "./islands"]) = Return islandPaths →
  env1 !! FRSH_DEV_PREVIOUS_MANIFEST
  = Some (JSON.stringify (mkManifest routePaths islandPaths)) →
  JSON_parse w (JSON.stringify (mkManifest routePaths islandPaths))
  = Return (manifest_value (mkManifest routePaths islandPaths)) →
  fails w (Exists (toFileUrl_href (join [outDir; "fresh.gen.ts"]))) = None →
  exists_ w (toFileUrl_href (join [outDir; "fresh.gen.ts"])) = true →
  generate_calls (trace (run_dev w dir outDir entrypoint env1).2) = 0.
Proof.
  intros Hversion Hroutes Hislands Henv Hparse Hexists_ok Hexists.
  assert (Hload : load_currentManifest w (env1 !! FRSH_DEV_PREVIOUS_MANIFEST)
                  = Return (manifest_value (mkManifest routePaths islandPaths))).
  { rewrite Henv. cbn [load_currentManifest].
    by rewrite stringify_not_empty. }
  rewrite (dev_run_reaches_check w dir outDir entrypoint env1
             routePaths islandPaths _ Hversion Hroutes Hislands Hload).
  destruct (dev_after_check_trace w dir outDir entrypoint
              (mkManifest routePaths islandPaths)
              (manifestChanged (mkManifest routePaths islandPaths)
                               (mkManifest routePaths islandPaths))
              (recorded env1 (mkManifest routePaths islandPaths)))
    as (_ & gen & rest & Htr & Hq & Hgen).
  cbv zeta in Htr, Hgen. rewrite Htr. cbn [recorded trace].
  change (Exists (toFileUrl_href (join [outDir; "fresh.gen.ts"])) :: gen ++ rest)
    with ([Exists (toFileUrl_href (join [outDir; "fresh.gen.ts"]))]
            ++ gen ++ rest).
  rewrite !generate_calls_app, Hq.
  destruct Hgen as [[-> _]|(evs & _ & _ & _ & Hcond & _)]; [done|].
  rewrite Hexists in Hcond. cbn [negb orb] in Hcond.
  apply manifestChanged_true in Hcond. by destruct Hcond.
Qed.

Lemma dev_second_cycle_reuses_witness :
  JSON_parse (sample_world true (λ _, None))
    (JSON.stringify (mkManifest ["api/joke.ts"; "index.tsx"] []))
  = Return (manifest_value (mkManifest ["api/joke.ts"; "index.tsx"] []))
  ∧ generate_calls
      (trace (run_dev (sample_world true (λ _, None)) "/app" "/app/.fresh"
                "file:///app/main.ts" recorded_env).2)
    = 0.
Proof.
  assert (Hparse : JSON_parse (sample_world true (λ _, None))
                     (JSON.stringify (mkManifest ["api/joke.ts"; "index.tsx"] []))
                   = Return (manifest_value
                               (mkManifest ["api/joke.ts"; "index.tsx"] [])))
    by (vm_compute; reflexivity).
  assert (Hroutes : collectDir sample_fs (join ["/app"; "./routes"])
                    = Return ["api/joke.ts"; "index.tsx"])
    by (vm_compute; reflexivity).
  assert (Hislands : collectDir sample_fs (join ["/app"; "./islands"])
                     = Return []) by (vm_compute; reflexivity).
  split; [exact Hparse|].
  refine (dev_second_cycle_reuses
            (sample_world true (λ _, None))
            "/app" "/app/.fresh" "file:///app/main.ts" recorded_env
            ["api/joke.ts"; "index.tsx"] []
            eq_refl Hroutes Hislands _ Hparse eq_refl eq_refl).
  vm_compute. reflexivity.
Defined.

(** X23.  When the environment variable holds text that [JSON.parse] reads
    as an object without a [routes] property, such as the text of the empty
    object, the cycle first records the new manifest over it and then fails
    with the [TypeError] that [arraysEqual] throws on reading the length of
    [undefined]; nothing is generated. *)
Theorem dev_record_without_routes (w : World) (dir outDir entrypoint : string)
  (env0 : gmap string string) (routePaths islandPaths : list string)
  (text : string) (properties : gmap string JsValue) :
  version_gte_min w = true →
  collectDir (fs w) (join [dir; "./routes"]) = Return routePaths →
  collectDir (fs w) (join [dir; "./islands"]) = Return islandPaths →
  env0 !! FRSH_DEV_PREVIOUS_MANIFEST = Some text →
  text ≠ EmptyString →
  JSON_parse w text = Return (JObject properties) →
  properties !! "routes" = None →
  run_dev w dir outDir entrypoint env0
  = (Throw (cannot_read "undefined" "length"),
     {| env := <[FRSH_DEV_PREVIOUS_MANIFEST :=
                   JSON.stringify (mkManifest routePaths islandPaths)]> env0;
        trace := [UpdateCheck;
                  EnvSet FRSH_DEV_PREVIOUS_MANIFEST
                    (JSON.stringify (mkManifest routePaths islandPaths))] |}).
Proof.
  intros Hversion Hroutes Hislands Henv Htext Hparse Hnone.
  rewrite dev_run_unfold by done.
  rewrite (scans_return _ _ _ _ Hroutes Hislands). cbv zeta.
  rewrite Henv. cbn [load_currentManifest].
  apply String.eqb_neq in Htext. rewrite Htext, Hparse.
  by rewrite (manifestChanged_untyped_no_routes _ _ Hnone).
Qed.

Lemma dev_record_without_routes_witness :
  empty_object_env !! FRSH_DEV_PREVIOUS_MANIFEST = Some "{}"
  ∧ run_dev (sample_world true (λ _, None)) "/app" "/app/.fresh"
            "file:///app/main.ts" empty_object_env
    = (Throw (cannot_read "undefined" "length"),
       {| env := recorded_env;
          trace := [UpdateCheck;
                    EnvSet FRSH_DEV_PREVIOUS_MANIFEST
                      (JSON.stringify
                         (mkManifest ["api/joke.ts"; "index.tsx"] []))] |}).
Proof.
  assert (Henv : empty_object_env !! FRSH_DEV_PREVIOUS_MANIFEST = Some "{}")
    by (vm_compute; reflexivity).
  split; [exact Henv|].
  refine (eq_trans
            (dev_record_without_routes
               (sample_world true (λ _, None)) "/app" "/app/.fresh"
               "file:///app/main.ts" empty_object_env
               ["api/joke.ts"; "index.tsx"] [] "{}" ∅
               eq_refl _ _ Henv _ eq_refl eq_refl) _).
  - vm_compute. reflexivity.
  - vm_compute. reflexivity.
  - discriminate.
  - vm_compute. reflexivity.
Defined.

(** ** Import specifiers and the place of the output directory *)

Lemma strip_common_refl xs : posix.strip_common xs xs = ([], []).
Proof.
  induction xs as [|x xs IH]; [done|]. cbn [posix.strip_common].
  by rewrite String.eqb_refl.
Qed.

Lemma join_skips_empty paths :
  join (EmptyString :: paths) = join paths.
Proof. unfold join, posix.join. by rewrite filter_cons_False by (intros H; by apply H). Qed.

(** X20.  When the manifest is generated into the project directory itself,
    [relative] gives the empty path, and every route and island module is
    imported under exactly the specifier that is its key in the exported
    object. *)
Theorem import_specifier_same_directory (directory kind file : string) :
  relative directory directory = EmptyString
  ∧ toImportSpecifier (join [relative directory directory; kind; file])
    = entry_key kind file.
Proof.
  assert (Hrel : relative directory directory = EmptyString).
  { unfold relative, posix.relative. by rewrite strip_common_refl. }
  split; [done|]. rewrite Hrel. unfold entry_key. by rewrite join_skips_empty.
Qed.

Lemma strip_common_snoc xs x : posix.strip_common (xs ++ [x]) xs = ([x], []).
Proof.
  induction xs as [|y xs IH]; [done|]. cbn [app posix.strip_common].
  by rewrite String.eqb_refl.
Qed.

(** The output directory one level below the project: [relative] is "..". *)
Lemma relative_parent dir sub :
  valid_name sub = true → relative (child_path dir sub) dir = "..".
Proof.
  intros Hsub. unfold relative, posix.relative.
  rewrite segments_child.
  assert (Hseg : posix.segments sub = [sub]).
  { apply (segments_names [sub]); [done|by constructor]. }
  by rewrite Hseg, strip_common_snoc.
Qed.

Lemma normalize_parent names :
  names ≠ [] → Forall (λ name, plain_name name = true) names →
  posix.normalize (Array_join "/" (".." :: names))
  = Array_join "/" (".." :: names).
Proof.
  intros Hnil Hall.
  assert (Hcons : Array_join "/" (".." :: names)
                  = "../" +:+ Array_join "/" names) by by destruct names.
  destruct (Array_join_plain_head names Hnil Hall) as (c & tail & Hhead & Hc).
  unfold posix.normalize.
  assert (Hne : String.eqb (Array_join "/" (".." :: names)) EmptyString = false)
    by by rewrite Hcons.
  assert (Habs : startsWith (Array_join "/" (".." :: names)) "/" = false)
    by by rewrite Hcons.
  assert (Htrail : endsWith (Array_join "/" (".." :: names)) "/" = false).
  { rewrite Hcons. change ("../" +:+ Array_join "/" names)
      with (child_path ".." (Array_join "/" names)).
    assert (Hsame : ∀ s, endsWith (child_path ".." s) "/" = endsWith s "/"
                         ∨ s = EmptyString).
    { intros [|x s]; [by right|left].
      unfold child_path. rewrite !append_cons, append_nil.
      rewrite !endsWith_cons. cbn [String.eqb Ascii.eqb].
      repeat (rewrite ?orb_false_l; try done). }
    destruct (Hsame (Array_join "/" names)) as [->|Hempty].
    - by apply Array_join_plain_no_trailing_slash.
    - by rewrite Hhead in Hempty. }
  rewrite Hne, Habs, Htrail. cbn [negb]. unfold posix.normalizeString.
  pose proof (split_Array_join Chars.slash (".." :: names) ltac:(done)) as Hsplit.
  change (str Chars.slash) with "/" in Hsplit. rewrite Hsplit.
  2: { constructor; [|by apply plain_names_slash_free].
       cbn. rewrite !not_elem_of_cons. repeat split; try discriminate.
       apply not_elem_of_nil. }
  assert (Hfold : fold_left (posix.normalize_step true) (".." :: names) []
                  = rev names ++ [".."]).
  { change (fold_left (posix.normalize_step true) (".." :: names) [])
      with (fold_left (posix.normalize_step true) names [".."]).
    by apply normalize_steps_plain. }
  rewrite Hfold, rev_app_distr, rev_involutive.
  change (rev [".."] ++ names) with (".." :: names).
  rewrite Hne. cbn [andb negb]. by rewrite andb_false_r.
Qed.

(** X21.  When the project directory is an absolute path of plain names and
    the output directory is a plainly named directory directly inside it
    (as the default [.fresh] is), [relative] gives "..", and a route or
    island file whose path is made of plain names is imported as
    "../routes/" or "../islands/" followed by that path: the specifier
    climbs out of the output directory and takes no "./" prefix. *)
Theorem import_specifier_one_level_below (dir sub rel : string) :
  absolute_plain_path dir →
  plain_name sub = true →
  plain_path rel →
  relative (child_path dir sub) dir = ".."
  ∧ toImportSpecifier (join [relative (child_path dir sub) dir; "routes"; rel])
    = "../routes/" +:+ rel
  ∧ toImportSpecifier (join [relative (child_path dir sub) dir; "islands"; rel])
    = "../islands/" +:+ rel.
Proof.
  intros _ Hsub (names & Hnil & Hall & ->).
  apply plain_name_spec in Hsub as (Hsub & _).
  rewrite (relative_parent _ _ Hsub). split; [done|].
  assert (Hkind : ∀ kind,
             plain_name kind = true →
             toImportSpecifier (join [".."; kind; Array_join "/" names])
             = "../" +:+ kind +:+ "/" +:+ Array_join "/" names).
  { intros kind Hkind.
    assert (Hall' : Forall (λ name, plain_name name = true) (kind :: names))
      by by constructor.
    destruct (Array_join_plain_head names Hnil Hall) as (c & tail & Hhead & _).
    assert (Hkind_ne : kind ≠ EmptyString).
    { apply plain_name_spec in Hkind as (Hvalid & _).
      by apply valid_name_spec in Hvalid as [? _]. }
    unfold toImportSpecifier, join, posix.join.
    rewrite filter_cons_True by done.
    rewrite filter_cons_True by done.
    rewrite filter_cons_True by (rewrite Hhead; done).
    rewrite filter_nil. cbv iota.
    assert (Hjoin : Array_join "/" [".."; kind; Array_join "/" names]
                    = Array_join "/" (".." :: kind :: names)).
    { destruct names; [done|]. by rewrite !Array_join_cons. }
    rewrite Hjoin.
    rewrite !(normalize_parent (kind :: names) ltac:(done) Hall').
    assert (Hcons : Array_join "/" (".." :: kind :: names)
                    = "../" +:+ kind +:+ "/" +:+ Array_join "/" names).
    { destruct names; [done|]. rewrite !Array_join_cons. reflexivity. }
    rewrite Hcons.
    rewrite replace_backslashes_id; [done|].
    rewrite <- Hcons.
    change (Array_join "/" (".." :: kind :: names))
      with (".." +:+ "/" +:+ Array_join "/" (kind :: names)).
    rewrite !list_ascii_append, !not_elem_of_app. split; [|split].
    - cbn. rewrite !not_elem_of_cons. repeat split; try discriminate.
      apply not_elem_of_nil.
    - cbn. rewrite !not_elem_of_cons. repeat split; try discriminate.
      apply not_elem_of_nil.
    - by apply Array_join_plain_no_backslash. }
  split; by rewrite Hkind.
Qed.

Lemma absolute_plain_path_app : absolute_plain_path "/app".
Proof.
  exists ["app"]. split; [done|]. split; [|done]. repeat constructor.
Qed.

Lemma import_specifier_one_level_below_witness :
  (absolute_plain_path "/app" ∧ plain_name ".fresh" = true
   ∧ plain_path "api/joke.ts")
  ∧ relative (child_path "/app" ".fresh") "/app" = ".."
  ∧ toImportSpecifier
      (join [relative (child_path "/app" ".fresh") "/app"; "routes"; "api/joke.ts"])
    = "../routes/" +:+ "api/joke.ts"
  ∧ toImportSpecifier
      (join [relative (child_path "/app" ".fresh") "/app"; "islands"; "api/joke.ts"])
    = "../islands/" +:+ "api/joke.ts".
Proof.
  split; [split; [exact absolute_plain_path_app|];
          split; [reflexivity|exact plain_path_joke]|].
  exact (import_specifier_one_level_below "/app" ".fresh" "api/joke.ts"
           absolute_plain_path_app eq_refl plain_path_joke).
Defined.

